(** * The product listing controller of the marketplace backend

    A shallow embedding of [getProducts] (controllers/productController.js,
    as printed in INTERVIEW_GUIDE.md) together with the part of the in-memory
    database it touches (config/database.js), and the properties of the
    filter / sort / paginate pipeline.

    Conventions of the model.
    - Query parameters are what Express hands over for a plain query string:
      each one is either [undefined] ([None]) or a string ([Some s]).
    - Strings are sequences of 8-bit characters; case mapping and white space
      are those of ASCII.
    - A finite JavaScript number is modelled by its exact value: prices and
      ratings are rationals ([Q]), array indices and page counts are integers
      ([Z]).  Rounding to binary64 is not modelled.
    - Arrays live in a heap and are named by locations, because the listing
      controller sorts in place an array it may share with the database. *)

From Stdlib Require Import List String Ascii ZArith QArith Lia Lqa Bool.
From Stdlib Require Import Sorted Permutation DecimalString.
From ExtLib Require Import Structures.Monad Structures.MonadState.
From ExtLib Require Import Data.Monads.StateMonad.
Import ListNotations.
Import MonadNotation.

Local Open Scope string_scope.
Local Open Scope Z_scope.
Local Open Scope list_scope.

(** ** JavaScript built-ins used by the controller *)

Module JS.

(** [if (s)] on a string: every string but the empty one is truthy. *)
Definition truthy (s : string) : bool :=
  match s with
  | EmptyString => false
  | String _ _ => true
  end.

(** [if (x)] on a query parameter: [undefined] is falsy. *)
Definition truthy_param (x : option string) : bool :=
  match x with
  | None => false
  | Some s => truthy s
  end.

Definition code (c : ascii) : Z := Z.of_nat (nat_of_ascii c).

Definition lower_char (c : ascii) : ascii :=
  if (65 <=? code c) && (code c <=? 90)
  then ascii_of_nat (nat_of_ascii c + 32)
  else c.

(** [String.prototype.toLowerCase]. *)
Fixpoint toLowerCase (s : string) : string :=
  match s with
  | EmptyString => EmptyString
  | String c s' => String (lower_char c) (toLowerCase s')
  end.

(** [s.includes(t)]: does [t] occur in [s]? *)
Fixpoint includes (s t : string) : bool :=
  if String.prefix t s then true
  else match s with
       | EmptyString => false
       | String _ s' => includes s' t
       end.

(** White space and line terminators stripped by [parseInt] and
    [parseFloat]: TAB, LF, VT, FF, CR and SP. *)
Definition is_ws (c : ascii) : bool :=
  ((9 <=? code c) && (code c <=? 13)) || (code c =? 32).

Fixpoint trim_start (s : string) : string :=
  match s with
  | EmptyString => EmptyString
  | String c s' => if is_ws c then trim_start s' else s
  end.

(** An optional sign: [true] for a leading minus. *)
Definition read_sign (s : string) : bool * string :=
  match s with
  | String "-" s' => (true, s')
  | String "+" s' => (false, s')
  | _ => (false, s)
  end.

(** The value of a character as a digit in the given radix. *)
Definition digit (radix : Z) (c : ascii) : option Z :=
  let n := code c in
  let v := if (48 <=? n) && (n <=? 57) then n - 48
           else if (97 <=? n) && (n <=? 122) then n - 87
           else if (65 <=? n) && (n <=? 90) then n - 55
           else radix in
  if v <? radix then Some v else None.

(** The longest prefix of digits: its value, how many digits were read, and
    the rest of the string. *)
Fixpoint read_digits (radix : Z) (s : string) (acc : Z) (n : nat)
  : Z * nat * string :=
  match s with
  | EmptyString => (acc, n, s)
  | String c s' =>
      match digit radix c with
      | Some d => read_digits radix s' (radix * acc + d) (S n)
      | None => (acc, n, s)
      end
  end.

(** [0x] or [0X] selects radix 16 when [parseInt] is given no radix. *)
Definition strip_hex_prefix (s : string) : Z * string :=
  match s with
  | String "0" (String "x" s') => (16, s')
  | String "0" (String "X" s') => (16, s')
  | _ => (10, s)
  end.

(** A JavaScript number: [Finite q] is the binary64 number whose exact
    value is [q]. *)
Inductive number : Type :=
| NaN
| Infinity (negative : bool)
| Finite (q : Q).

(** The number a numeric literal of value [m / d] denotes, for [0 <= m] and
    [0 < d]: the binary64 number nearest to it, ties to the even mantissa.
    The mantissa [q] has at most 53 bits and the exponent [e] is at least
    -1074, so small values become subnormal or zero; a result of 2^1024 or
    more is an infinity. *)
Definition binary64 (negative : bool) (m d : Z) : number :=
  if m =? 0 then Finite 0
  else
    let scaled e :=
      if 0 <=? e then m / (d * 2 ^ e) else (m * 2 ^ (- e)) / d in
    let e0 := Z.log2 m - Z.log2 d - 52 in
    let e1 := if scaled e0 <? 2 ^ 52 then e0 - 1 else e0 in
    let e := Z.max e1 (-1074) in
    let num := if 0 <=? e then m else m * 2 ^ (- e) in
    let den := if 0 <=? e then d * 2 ^ e else d in
    let q := num / den in
    let r := num mod den in
    let q := if 2 * r <? den then q
             else if den <? 2 * r then q + 1
             else if Z.even q then q else q + 1 in
    if 2 ^ 1024 <=? q * 2 ^ e then Infinity negative
    else
      let v := if 0 <=? e then Qmake (q * 2 ^ e) 1
               else Qred (Qmake q (Z.to_pos (2 ^ (- e)))) in
      Finite (if negative then Qopp v else v).

(** A number that is an integer, [NaN] or an infinity: what [parseInt]
    returns and what the arithmetic on its results gives. *)
Inductive integer : Type :=
| NotANumber
| Unbounded (negative : bool)
| Whole (z : Z).

(** The integer part of a number. *)
Definition truncate (x : number) : integer :=
  match x with
  | NaN => NotANumber
  | Infinity negative => Unbounded negative
  | Finite q => Whole (Z.quot (Qnum q) (Zpos (Qden q)))
  end.

(** [parseInt(s)], one argument: the digits are read exactly (the
    language lets an implementation read the digits after the 20th as
    zeros) and the integer they denote is rounded to binary64, so that
    beyond 2^53 not every integer is returned as it is written and a very
    long string of digits gives an infinity. *)
Definition parseInteger (s : string) : integer :=
  let '(neg, s1) := read_sign (trim_start s) in
  let '(radix, s2) := strip_hex_prefix s1 in
  let '(v, n, _) := read_digits radix s2 0 0%nat in
  match n with
  | O => NotANumber
  | S _ => truncate (binary64 neg v 1)
  end.

(** An integer as [res.json] prints it: [None] is [null], which stands
    for [NaN] and for the infinities. *)
Definition finite (x : integer) : option Z :=
  match x with
  | Whole z => Some z
  | _ => None
  end.

(** [parseInt(s)] as it appears in a response. *)
Definition parseInt (s : string) : option Z := finite (parseInteger s).

(** The exponent part [e[+-]ddd] of a decimal literal; a malformed one is
    not part of the literal and counts as exponent 0. *)
Definition read_exponent (s : string) : Z :=
  match s with
  | String c s' =>
      if (code c =? 101) || (code c =? 69) then
        let '(neg, s1) := read_sign s' in
        let '(v, n, _) := read_digits 10 s1 0 0%nat in
        match n with
        | O => 0
        | S _ => if neg then - v else v
        end
      else 0
  | EmptyString => 0
  end.

(** [parseFloat(s)]: the longest prefix of the trimmed string that is a
    decimal literal ([Infinity], [ddd], [ddd.], [ddd.ddd] or [.ddd], each
    with an optional sign and exponent), rounded to binary64; [NaN] when
    there is none. *)
Definition parseFloat (s : string) : number :=
  let '(neg, s1) := read_sign (trim_start s) in
  if String.prefix "Infinity" s1 then Infinity neg
  else
    let '(ip, ni, s2) := read_digits 10 s1 0 0%nat in
    let '(m, nf, s3) :=
      match s2 with
      | String "." s2' =>
          let '(m, nf, s3) := read_digits 10 s2' ip 0%nat in
          match ni, nf with
          | O, O => (m, nf, s2)
          | _, _ => (m, nf, s3)
          end
      | _ => (ip, 0%nat, s2)
      end in
    match ni, nf with
    | O, O => NaN
    | _, _ =>
        let e := read_exponent s3 - Z.of_nat nf in
        if 0 <=? e then binary64 neg (m * 10 ^ e) 1
        else binary64 neg m (10 ^ (- e))
    end.

(** [x >= y] and [x <= y] for a finite [x]; comparisons with [NaN] are
    false. *)
Definition ge (x : Q) (y : number) : bool :=
  match y with
  | NaN => false
  | Infinity negative => negative
  | Finite q => Qle_bool q x
  end.

Definition le (x : Q) (y : number) : bool :=
  match y with
  | NaN => false
  | Infinity negative => negb negative
  | Finite q => Qle_bool x q
  end.

(** Arithmetic on the numbers that [parseInt] returns.  [NaN] propagates
    and the infinities follow the rules of the language.  On integers the
    operations are exact, where the language rounds each result to
    binary64 and takes one beyond the range for an infinity.  [slice]
    cannot tell the difference: a result is rounded only when its
    magnitude is above 2^53, more than the length of any array; the
    rounded number then lies beyond the length on the same side, and so
    does what is computed from it below, so that both are clipped to the
    same index. *)
Definition add (x y : integer) : integer :=
  match x, y with
  | Whole a, Whole b => Whole (a + b)
  | Unbounded s, Whole _ => Unbounded s
  | Whole _, Unbounded s => Unbounded s
  | Unbounded s, Unbounded s' =>
      if Bool.eqb s s' then Unbounded s else NotANumber
  | _, _ => NotANumber
  end.

Definition opp (x : integer) : integer :=
  match x with
  | Whole a => Whole (- a)
  | Unbounded s => Unbounded (negb s)
  | NotANumber => NotANumber
  end.

Definition sub (x y : integer) : integer := add x (opp y).

Definition mul (x y : integer) : integer :=
  match x, y with
  | Whole a, Whole b => Whole (a * b)
  | Unbounded s, Whole b =>
      if b =? 0 then NotANumber else Unbounded (xorb s (b <? 0))
  | Whole a, Unbounded s =>
      if a =? 0 then NotANumber else Unbounded (xorb (a <? 0) s)
  | Unbounded s, Unbounded s' => Unbounded (xorb s s')
  | _, _ => NotANumber
  end.

(** [Math.ceil(len / d)] for an array length [len], as [res.json] prints
    it.  The quotient is [NaN] when [d] is [NaN], and [NaN] or an infinity
    when [d] is zero: these print as [null].  Divided by an infinity the
    length gives zero. *)
Definition ceil_div (len : nat) (d : integer) : option Z :=
  match d with
  | NotANumber => None
  | Unbounded _ => Some 0
  | Whole 0 => None
  | Whole d => Some (- ((- Z.of_nat len) / d))
  end.

(** A relative index of [slice], after [ToIntegerOrInfinity] has turned
    [NaN] into 0: negative ones count from the end, and everything is
    clipped to the array. *)
Definition relative_index (len : Z) (k : integer) : Z :=
  match k with
  | NotANumber => 0
  | Unbounded negative => if negative then 0 else len
  | Whole k => if k <? 0 then Z.max (len + k) 0 else Z.min k len
  end.

(** [Array.prototype.slice(start, end)]: a fresh array. *)
Definition slice {A : Type} (l : list A) (start_ end_ : integer) : list A :=
  let len := Z.of_nat (List.length l) in
  let k := relative_index len start_ in
  let final := relative_index len end_ in
  firstn (Z.to_nat (final - k)) (skipn (Z.to_nat k) l).

(** [Array.prototype.sort(compareFn)].  The language requires the sort to
    be stable: [a] stays in front of a later [b] unless [compareFn(a, b)]
    is positive.  Insertion from the right is such a sort. *)
Section Sort.
Context {A : Type}.
Variable compareFn : A -> A -> Q.

Fixpoint insert (x : A) (l : list A) : list A :=
  match l with
  | [] => [x]
  | y :: l' =>
      if Qle_bool (compareFn x y) 0 then x :: y :: l'
      else y :: insert x l'
  end.

Fixpoint sort (l : list A) : list A :=
  match l with
  | [] => []
  | x :: l' => insert x (sort l')
  end.
End Sort.

End JS.

(** ** Data model *)

(** A product record.  Records are well formed: [name] and [description]
    are strings, [price] and [rating] finite numbers; [categoryId] may be
    missing.  The controller reads product fields and never assigns one,
    so arrays hold the records themselves. *)
Record Product : Type := mkProduct {
  id : string;
  name : string;
  description : string;
  price : Q;
  categoryId : option string;
  stock : Z;
  rating : Q;
  createdAt : string
}.

(** [req.query]: every parameter is [undefined] or a string. *)
Module Query.
Record t : Type := mk {
  category : option string;
  search : option string;
  minPrice : option string;
  maxPrice : option string;
  sort : option string;
  page : option string;
  limit : option string
}.

(** The empty query string. *)
Definition empty : t := mk None None None None None None None.

(** The same query with one parameter replaced. *)
Definition with_minPrice (q : t) (x : option string) : t :=
  mk (category q) (search q) x (maxPrice q) (sort q) (page q) (limit q).
Definition with_maxPrice (q : t) (x : option string) : t :=
  mk (category q) (search q) (minPrice q) x (sort q) (page q) (limit q).
Definition with_sort (q : t) (x : option string) : t :=
  mk (category q) (search q) (minPrice q) (maxPrice q) x (page q) (limit q).
Definition with_page (q : t) (x : option string) : t :=
  mk (category q) (search q) (minPrice q) (maxPrice q) (sort q) x (limit q).
End Query.

(** The [pagination] object of the response.  A number that is [NaN] or
    infinite is [None]. *)
Record Pagination : Type := mkPagination {
  page : option Z;
  limit : option Z;
  total : nat;
  pages : option Z
}.

(** The body handed to [res.json]; [products] and [pagination] are the
    fields of its [data] object. *)
Record Response : Type := mkResponse {
  success : bool;
  products : list Product;
  pagination : Pagination
}.

(** ** The heap of arrays *)

Definition loc : Type := nat.
Definition heap : Type := list (list Product).

Definition deref (h : heap) (l : loc) : list Product := nth l h [].

Fixpoint update (h : heap) (l : loc) (v : list Product) : heap :=
  match h, l with
  | [], _ => []
  | _ :: h', O => v :: h'
  | a :: h', S l' => a :: update h' l' v
  end.

Local Open Scope monad_scope.

(** [arr.filter(f)] allocates the array of the elements that pass. *)
Definition Array_filter (arr : loc) (f : Product -> bool) : state heap loc :=
  h <- get ;;
  put (h ++ [filter f (deref h arr)]) ;;
  ret (List.length h).

(** [arr.sort(compareFn)] reorders [arr] itself. *)
Definition Array_sort (arr : loc) (compareFn : Product -> Product -> Q)
  : state heap unit :=
  h <- get ;;
  put (update h arr (JS.sort compareFn (deref h arr))).

(** [arr.slice(start, end)] allocates the copied segment. *)
Definition Array_slice (arr : loc) (start_ end_ : JS.integer)
  : state heap loc :=
  h <- get ;;
  put (h ++ [JS.slice (deref h arr) start_ end_]) ;;
  ret (List.length h).

(** [arr.length]. *)
Definition Array_length (arr : loc) : state heap nat :=
  h <- get ;;
  ret (List.length (deref h arr)).

(** The elements of [arr], as [res.json] serialises them. *)
Definition Array_read (arr : loc) : state heap (list Product) :=
  h <- get ;;
  ret (deref h arr).

(** ** config/database.js *)

Module db.
(** [let products = []]: the module's array; the binding is never
    assigned again, so it names one location for good. *)
Definition products : loc := 0%nat.

(** [getProducts: () => products] hands out the array itself, not a
    copy. *)
Definition getProducts : state heap loc := ret products.
End db.

(** ** controllers/productController.js *)

(** [const { page = 1 } = req.query]: the default replaces [undefined]
    only.  The numeric defaults are written as the strings [parseInt]
    turns them into. *)
Definition with_default (x : option string) (d : string) : string :=
  match x with
  | None => d
  | Some s => s
  end.

(** [x === lit] for a string literal. *)
Definition strict_eq (x : option string) (lit : string) : bool :=
  match x with
  | None => false
  | Some s => String.eqb s lit
  end.

(** [if (x) { products = products.filter(f x) }] *)
Definition filter_if (x : option string) (f : string -> Product -> bool)
    (arr : loc) : state heap loc :=
  match x with
  | None => ret arr
  | Some s => if JS.truthy s then Array_filter arr (f s) else ret arr
  end.

Definition by_category (category : string) (p : Product) : bool :=
  strict_eq (categoryId p) category.

Definition by_search (search : string) (p : Product) : bool :=
  let searchLower := JS.toLowerCase search in
  JS.includes (JS.toLowerCase (name p)) searchLower
  || JS.includes (JS.toLowerCase (description p)) searchLower.

Definition by_minPrice (minPrice : string) (p : Product) : bool :=
  JS.ge (price p) (JS.parseFloat minPrice).

Definition by_maxPrice (maxPrice : string) (p : Product) : bool :=
  JS.le (price p) (JS.parseFloat maxPrice).

(** The compare functions [(a, b) => a.price - b.price] and the like.
    [sort] looks at the sign of the result only, and the difference of two
    finite floating-point numbers has the sign of their exact
    difference. *)
Definition price_asc (a b : Product) : Q := (price a - price b)%Q.
Definition price_desc (a b : Product) : Q := (price b - price a)%Q.
Definition rating_desc (a b : Product) : Q := (rating b - rating a)%Q.

(** [export const getProducts = (req, res, next) => { try { ... } }].
    On strings and well-formed records no step of the body throws, so the
    [catch] branch is never taken and the handler always reaches
    [res.json]; the result is the body it sends. *)
Definition getProducts (query : Query.t) : state heap Response :=
  (* 1. extract query parameters *)
  let category := Query.category query in
  let search := Query.search query in
  let minPrice := Query.minPrice query in
  let maxPrice := Query.maxPrice query in
  let sort := Query.sort query in
  let page := with_default (Query.page query) "1" in
  let limit := with_default (Query.limit query) "20" in
  products <- db.getProducts ;;
  (* 2. apply filters *)
  products <- filter_if category by_category products ;;
  products <- filter_if search by_search products ;;
  products <- filter_if minPrice by_minPrice products ;;
  products <- filter_if maxPrice by_maxPrice products ;;
  (* 3. apply sorting *)
  (if strict_eq sort "price_asc" then Array_sort products price_asc
   else if strict_eq sort "price_desc" then Array_sort products price_desc
   else if strict_eq sort "rating" then Array_sort products rating_desc
   else ret tt) ;;
  (* 4. pagination *)
  let startIndex :=
    JS.mul (JS.sub (JS.parseInteger page) (JS.Whole 1))
      (JS.parseInteger limit) in
  let endIndex := JS.add startIndex (JS.parseInteger limit) in
  paginatedProducts <- Array_slice products startIndex endIndex ;;
  (* 5. send response *)
  items <- Array_read paginatedProducts ;;
  len <- Array_length products ;;
  ret {| success := true;
         products := items;
         pagination := {| page := JS.parseInt page;
                          limit := JS.parseInt limit;
                          total := len;
                          pages :=
                            JS.ceil_div len (JS.parseInteger limit) |} |}.

(** One request against a database whose product array holds [catalog]:
    the response, and the product array afterwards. *)
Definition run (catalog : list Product) (query : Query.t)
  : Response * list Product :=
  let '(r, h) := runState (getProducts query) [catalog] in
  (r, deref h db.products).

Definition respond (catalog : list Product) (query : Query.t) : Response :=
  fst (run catalog query).

Definition catalog_after (catalog : list Product) (query : Query.t)
  : list Product :=
  snd (run catalog query).

(** ** The pipeline seen as a function of the catalog *)

(** What [if (x) { products = products.filter(f x) }] leaves in
    [products]. *)
Definition keep_if (x : option string) (f : string -> Product -> bool)
    (l : list Product) : list Product :=
  match x with
  | None => l
  | Some s => if JS.truthy s then filter (f s) l else l
  end.

(** The four filters in the order the controller applies them. *)
Definition survivors (q : Query.t) (c : list Product) : list Product :=
  keep_if (Query.maxPrice q) by_maxPrice
    (keep_if (Query.minPrice q) by_minPrice
       (keep_if (Query.search q) by_search
          (keep_if (Query.category q) by_category c))).

(** Does some filter run?  Then [products] is a fresh array. *)
Definition filtering (q : Query.t) : bool :=
  JS.truthy_param (Query.category q) || JS.truthy_param (Query.search q)
  || JS.truthy_param (Query.minPrice q) || JS.truthy_param (Query.maxPrice q).

(** The compare function the [sort] parameter selects, if any. *)
Definition compareFn (q : Query.t) : option (Product -> Product -> Q) :=
  if strict_eq (Query.sort q) "price_asc" then Some price_asc
  else if strict_eq (Query.sort q) "price_desc" then Some price_desc
  else if strict_eq (Query.sort q) "rating" then Some rating_desc
  else None.

Definition arrange (q : Query.t) (l : list Product) : list Product :=
  match compareFn q with
  | Some f => JS.sort f l
  | None => l
  end.

Definition pageNumber (q : Query.t) : option Z :=
  JS.parseInt (with_default (Query.page q) "1").

Definition pageSize (q : Query.t) : option Z :=
  JS.parseInt (with_default (Query.limit q) "20").

(** The same two numbers before they are printed. *)
Definition pageValue (q : Query.t) : JS.integer :=
  JS.parseInteger (with_default (Query.page q) "1").

Definition limitValue (q : Query.t) : JS.integer :=
  JS.parseInteger (with_default (Query.limit q) "20").

Definition startIndex (q : Query.t) : JS.integer :=
  JS.mul (JS.sub (pageValue q) (JS.Whole 1)) (limitValue q).

Definition endIndex (q : Query.t) : JS.integer :=
  JS.add (startIndex q) (limitValue q).

(** ** Vocabulary of the specification *)

(** [t] occurs in [s]. *)
Definition Substring (t s : string) : Prop :=
  exists pre post : string, s = (pre ++ t ++ post)%string.

(** A parameter counts as supplied when it is present and not empty. *)
Definition supplied (x : option string) (s : string) : Prop :=
  x = Some s /\ s <> "".

(** [x] is at least (at most) the number [y]. *)
Definition AtLeast (x : Q) (y : JS.number) : Prop :=
  match y with
  | JS.NaN => False
  | JS.Infinity negative => negative = true
  | JS.Finite q => (q <= x)%Q
  end.

Definition AtMost (x : Q) (y : JS.number) : Prop :=
  match y with
  | JS.NaN => False
  | JS.Infinity negative => negative = false
  | JS.Finite q => (x <= q)%Q
  end.

(** A product satisfies every active filter of the query. *)
Record Satisfies (q : Query.t) (p : Product) : Prop := {
  sat_category :
    forall s, supplied (Query.category q) s -> categoryId p = Some s;
  sat_search :
    forall s, supplied (Query.search q) s ->
      Substring (JS.toLowerCase s) (JS.toLowerCase (name p))
      \/ Substring (JS.toLowerCase s) (JS.toLowerCase (description p));
  sat_minPrice :
    forall s, supplied (Query.minPrice q) s ->
      AtLeast (price p) (JS.parseFloat s);
  sat_maxPrice :
    forall s, supplied (Query.maxPrice q) s ->
      AtMost (price p) (JS.parseFloat s)
}.

(** The same as one boolean predicate, evaluated in a single pass. *)
Definition check (x : option string) (f : string -> Product -> bool)
    (p : Product) : bool :=
  match x with
  | None => true
  | Some s => if JS.truthy s then f s p else true
  end.

Definition matches (q : Query.t) (p : Product) : bool :=
  check (Query.category q) by_category p
  && check (Query.search q) by_search p
  && check (Query.minPrice q) by_minPrice p
  && check (Query.maxPrice q) by_maxPrice p.

(** Orders on products. *)
Definition price_le (a b : Product) : Prop := (price a <= price b)%Q.
Definition price_ge (a b : Product) : Prop := (price b <= price a)%Q.
Definition rating_ge (a b : Product) : Prop := (rating b <= rating a)%Q.
Definition newer_or_same (a b : Product) : Prop :=
  String.leb (createdAt b) (createdAt a) = true.

(** The products of [l] whose key is [k], in the order of [l]. *)
Definition with_key (key : Product -> Q) (k : Q) (l : list Product)
  : list Product :=
  filter (fun p => Qeq_bool (key p) k) l.

(** [l'] holds the products of [l] in an order that keeps products of
    equal key in their order in [l]. *)
Definition Stable (key : Product -> Q) (l l' : list Product) : Prop :=
  Permutation l l' /\ forall k, with_key key k l' = with_key key k l.

(** [t] is the least integer not below [x]. *)
Definition is_ceil (t : Z) (x : Q) : Prop :=
  (inject_Z t - 1 < x)%Q /\ (x <= inject_Z t)%Q.

(** [m / n] as a rational. *)
Definition quotient (m : nat) (n : Z) : Q :=
  (inject_Z (Z.of_nat m) / inject_Z n)%Q.

(** The page count of a response is [ceil(total / limit)], is not
    negative, and is zero exactly when nothing matched. *)
Definition TotalPagesOk (r : Response) : Prop :=
  exists n t,
    limit (pagination r) = Some n /\ pages (pagination r) = Some t
    /\ is_ceil t (quotient (total (pagination r)) n)
    /\ 0 <= t
    /\ (t = 0 <-> total (pagination r) = 0%nat).

(** The response to [q] over [c] counts the matching products and the
    pages they fill, never holds more items than the page size, and is
    empty when the page lies beyond the last one or nothing matched. *)
Definition EmptyPagesOk (c : list Product) (q : Query.t) (r : Response)
  : Prop :=
  total (pagination r) = List.length (filter (matches q) c)
  /\ (exists n t,
        limit (pagination r) = Some n /\ pages (pagination r) = Some t
        /\ is_ceil t (quotient (total (pagination r)) n)
        /\ Z.of_nat (List.length (products r)) <= n
        /\ forall p, page (pagination r) = Some p -> t < p ->
             products r = [])
  /\ (total (pagination r) = 0%nat -> products r = []).

(** The listings of pages 1 to [m], one after the other, are the whole
    filtered and sorted sequence, every matching product exactly once,
    for every [m] that is not below the page count the response gives. *)
Definition PagesTile (c : list Product) (q : Query.t) : Prop :=
  forall ps : list string,
    map JS.parseInt ps
      = map (fun k => Some (Z.of_nat k)) (seq 1 (List.length ps)) ->
    (forall t, pages (pagination (respond c q)) = Some t ->
               t <= Z.of_nat (List.length ps)) ->
    List.concat
      (map (fun s => products (respond c (Query.with_page q (Some s)))) ps)
    = arrange q (filter (matches q) c)
    /\ Permutation (filter (matches q) c)
         (List.concat
            (map (fun s => products (respond c (Query.with_page q (Some s))))
               ps)).

(** Page and page size come back clamped to at least 1. *)
Definition EchoesClamped (q : Query.t) (r : Response) : Prop :=
  forall p n, pageNumber q = Some p -> pageSize q = Some n ->
    page (pagination r) = Some (Z.max 1 p)
    /\ limit (pagination r) = Some (Z.max 1 n).

(** A price bound that does not parse makes no difference. *)
Definition UnparsableIgnored (c : list Product) (q : Query.t) (s : string)
  : Prop :=
  JS.parseFloat s = JS.NaN ->
  respond c (Query.with_minPrice q (Some s))
    = respond c (Query.with_minPrice q None)
  /\ respond c (Query.with_maxPrice q (Some s))
    = respond c (Query.with_maxPrice q None).

(** The listing for [q] over [c] is a window of the matching products put
    in the order [ord], products of equal [key] staying in catalog
    order. *)
Definition SortedPage (ord : Product -> Product -> Prop)
    (key : Product -> Q) (c : list Product) (q : Query.t) (r : Response)
  : Prop :=
  exists full,
    Stable key (filter (matches q) c) full
    /\ StronglySorted ord full
    /\ products r = JS.slice full (startIndex q) (endIndex q)
    /\ StronglySorted ord (products r).

(** [a] may stay in front of [b] under a compare function. *)
Definition before {A : Type} (compareFn : A -> A -> Q) (a b : A) : Prop :=
  (compareFn a b <= 0)%Q.

(** A compare function that orders the products by a key: a total
    preorder under which products of equal key tie. *)
Record Consistent (f : Product -> Product -> Q) (key : Product -> Q)
  : Prop := {
  cons_total : forall a b, ~ before f a b -> before f b a;
  cons_trans : forall a b c, before f a b -> before f b c -> before f a c;
  cons_tie : forall a b, (key a == key b)%Q -> before f a b;
  cons_antisym :
    forall a b, before f a b -> before f b a -> (key a == key b)%Q
}.

(** ** A small catalog *)

Definition sample (n : string) (pr rt : Z) (cat created : string)
  : Product :=
  {| id := n; name := n; description := (n ++ " description")%string;
     price := pr # 1; categoryId := Some cat; stock := 1;
     rating := rt # 1; createdAt := created |}.

Definition prodA : Product := sample "A" 10 4 "x" "2024-01-01T00:00:00.000Z".
Definition prodB : Product := sample "B" 30 2 "y" "2024-01-02T00:00:00.000Z".
Definition prodC : Product := sample "C" 20 5 "x" "2024-01-03T00:00:00.000Z".
Definition prodD : Product := sample "D" 5 1 "x" "2024-01-04T00:00:00.000Z".
Definition prodE : Product := sample "E" 50 3 "y" "2024-01-05T00:00:00.000Z".

Definition shop : list Product := [prodA; prodB; prodC; prodD; prodE].

(** A product whose price is the binary64 number written [0.1]. *)
Definition dime : Product :=
  {| id := "F"; name := "F"; description := "F description";
     price := 3602879701896397 # 36028797018963968; categoryId := Some "x";
     stock := 1; rating := 3 # 1; createdAt := "2024-01-06T00:00:00.000Z" |}.

(** ** Some requests *)

Definition query_newest : Query.t :=
  Query.with_sort Query.empty (Some "newest").

Definition query_by_price : Query.t :=
  Query.with_sort Query.empty (Some "price_asc").

Definition query_page (pg lim : string) : Query.t :=
  Query.mk None None None None None (Some pg) (Some lim).

(** A decimal numeral of 310 digits, beyond the largest binary64
    number. *)
Definition huge : string :=
  String "1" (String.concat "" (repeat "0" 309%nat)).

(** Requests served one after the other by the same database. *)
Fixpoint serve (catalog : list Product) (queries : list Query.t)
  : list Response * list Product :=
  match queries with
  | [] => ([], catalog)
  | q :: queries' =>
      let '(r, catalog') := run catalog q in
      let '(rs, catalog'') := serve catalog' queries' in
      (r :: rs, catalog'')
  end.

(** * The rest of the application

    The other handlers of the backend and the cart of the frontend, under
    the same conventions.  In addition: the fields of a request body are
    strings; an [async] function runs undisturbed from one [await] to the
    next, so a handler is cut where it awaits something that lets other
    requests in; what belongs to a library ([bcrypt], [jsonwebtoken]) or
    to a module that is not printed is a parameter. *)

(** ** More requests *)

(** The same query with another search term. *)
Definition with_search (q : Query.t) (x : option string) : Query.t :=
  Query.mk (Query.category q) x (Query.minPrice q) (Query.maxPrice q)
    (Query.sort q) (Query.page q) (Query.limit q).

(** The pages [ps] of one listing, as requests. *)
Definition page_requests (q : Query.t) (ps : list string) : list Query.t :=
  map (fun s => Query.with_page q (Some s)) ps.

(** ** frontend/src/context/CartContext.jsx *)

(** An entry of the cart.  The entries [addToCart] builds carry the product
    and its price; entries that came from elsewhere (the saved cart, the
    backend) may lack either, which is why the code guards every access
    with [?.] and [||]. *)
Module CartItem.
Record t : Type := mk {
  product : option Product;
  quantity : Z;
  price : option Q
}.
End CartItem.

Module Cart.

(** [item.product?.id] *)
Definition product_id (item : CartItem.t) : option string :=
  match CartItem.product item with
  | Some p => Some (id p)
  | None => None
  end.

(** [item.product?.id === productId]; both sides may be [undefined]. *)
Definition has_id (productId : option string) (item : CartItem.t) : bool :=
  match product_id item, productId with
  | Some a, Some b => String.eqb a b
  | None, None => true
  | _, _ => false
  end.

(** The calls to [cartAPI]. *)
Inductive request : Type :=
| ApiAdd (productId : string) (quantity : Z)
| ApiUpdate (productId : option string) (quantity : Z)
| ApiRemove (productId : option string)
| ApiClear.

(** What a cart operation does: the function it hands to [setCart], which
    React applies to the state of the moment, and the calls it makes to the
    backend.  A failing call is caught and logged and changes nothing
    here. *)
Record effect : Type := mkEffect {
  update : list CartItem.t -> list CartItem.t;
  calls : list request
}.

(** [if (isAuthenticated) { await cartAPI... }] *)
Definition sync (isAuthenticated : bool) (r : request) : list request :=
  if isAuthenticated then [r] else [].

Definition removeFromCart (isAuthenticated : bool)
    (productId : option string) : effect :=
  {| update := fun prev => filter (fun item => negb (has_id productId item)) prev;
     calls := sync isAuthenticated (ApiRemove productId) |}.

(** [{ ...item, quantity }] *)
Definition set_quantity (item : CartItem.t) (quantity : Z) : CartItem.t :=
  CartItem.mk (CartItem.product item) quantity (CartItem.price item).

Definition updateQuantity (isAuthenticated : bool)
    (productId : option string) (quantity : Z) : effect :=
  if quantity <=? 0 then removeFromCart isAuthenticated productId
  else
    {| update := fun prev =>
         map (fun item =>
                if has_id productId item then set_quantity item quantity
                else item) prev;
       calls := sync isAuthenticated (ApiUpdate productId quantity) |}.

(** [addToCart] looks the product up in [cart], the state of the render
    that created the function. *)
Definition addToCart (isAuthenticated : bool) (cart : list CartItem.t)
    (product : Product) (quantity : Z) : effect :=
  match find (has_id (Some (id product))) cart with
  | Some existingItem =>
      let newQuantity := CartItem.quantity existingItem + quantity in
      updateQuantity isAuthenticated (Some (id product)) newQuantity
  | None =>
      let newItem :=
        CartItem.mk (Some product) quantity (Some (price product)) in
      {| update := fun prev => prev ++ [newItem];
         calls := sync isAuthenticated (ApiAdd (id product) quantity) |}
  end.

Definition clearCart (isAuthenticated : bool) : effect :=
  {| update := fun _ => [];
     calls := sync isAuthenticated ApiClear |}.

(** A number is truthy unless it is 0; [undefined] is falsy. *)
Definition truthy_number (x : option Q) : bool :=
  match x with
  | Some q => negb (Qeq_bool q 0)
  | None => false
  end.

(** [x || y] *)
Definition or_else (x y : option Q) : option Q :=
  if truthy_number x then x else y.

(** [item.product?.price || item.price || 0] *)
Definition price_of (item : CartItem.t) : Q :=
  let product_price :=
    match CartItem.product item with
    | Some p => Some (price p)
    | None => None
    end in
  match or_else (or_else product_price (CartItem.price item)) (Some 0%Q) with
  | Some q => q
  | None => 0%Q
  end.

Definition getCartTotal (cart : list CartItem.t) : Q :=
  fold_left
    (fun total item =>
       (total + price_of item * inject_Z (CartItem.quantity item))%Q)
    cart 0%Q.

Definition getCartCount (cart : list CartItem.t) : Z :=
  fold_left (fun count item => count + CartItem.quantity item) cart 0.

(** The cart after an operation of a render that saw the cart as it is. *)
Definition step (cart : list CartItem.t)
    (operation : list CartItem.t -> effect) : list CartItem.t :=
  update (operation cart) cart.

End Cart.

(** ** frontend/src/pages/Cart.jsx, ProductDetail.jsx and
    components/ProductCard.jsx *)

Module CartPage.

(** [if (newQuantity < 1) return; updateQuantity(productId, newQuantity)] *)
Definition handleQuantityChange (isAuthenticated : bool)
    (productId : option string) (newQuantity : Z) : Cart.effect :=
  if newQuantity <? 1 then Cart.mkEffect (fun prev => prev) []
  else Cart.updateQuantity isAuthenticated productId newQuantity.

(** The [-] and [+] buttons of an entry; [product] is
    [item.product || {}]. *)
Definition minus (isAuthenticated : bool) (item : CartItem.t) : Cart.effect :=
  handleQuantityChange isAuthenticated (Cart.product_id item)
    (CartItem.quantity item - 1).

Definition plus (isAuthenticated : bool) (item : CartItem.t) : Cart.effect :=
  handleQuantityChange isAuthenticated (Cart.product_id item)
    (CartItem.quantity item + 1).

Definition handleRemove (isAuthenticated : bool) (item : CartItem.t)
  : Cart.effect :=
  Cart.removeFromCart isAuthenticated (Cart.product_id item).

End CartPage.

(** [onChange] of the quantity field of the product page:
    [Math.max(1, parseInt(e.target.value) || 1)].  Quantities are
    integers here: a numeral so long that [parseInt] reads it as
    [Infinity], which the page would take for the quantity, is read as no
    number. *)
Definition quantity_input (value : string) : Z :=
  Z.max 1 (match JS.parseInt value with
           | Some 0 => 1
           | Some n => n
           | None => 1
           end).

(** What the user can do to the cart: add one from a product card, add the
    quantity of the field from the product page, and the buttons of the
    cart page on an entry. *)
Inductive action : Type :=
| CardAdd (product : Product)
| DetailAdd (product : Product) (field : string)
| Minus (item : CartItem.t)
| Plus (item : CartItem.t)
| Remove (item : CartItem.t)
| Clear.

Definition perform (isAuthenticated : bool) (a : action)
    (cart : list CartItem.t) : Cart.effect :=
  match a with
  | CardAdd p => Cart.addToCart isAuthenticated cart p 1
  | DetailAdd p v => Cart.addToCart isAuthenticated cart p (quantity_input v)
  | Minus item => CartPage.minus isAuthenticated item
  | Plus item => CartPage.plus isAuthenticated item
  | Remove item => CartPage.handleRemove isAuthenticated item
  | Clear => Cart.clearCart isAuthenticated
  end.

(** The actions one after the other, each on the cart the one before
    left. *)
Definition session (isAuthenticated : bool) (actions : list action)
    (cart : list CartItem.t) : list CartItem.t :=
  fold_left (fun c a => Cart.step c (perform isAuthenticated a)) actions cart.

(** The product ids of the entries that have one. *)
Definition ids (cart : list CartItem.t) : list string :=
  flat_map (fun item => match Cart.product_id item with
                        | Some i => [i]
                        | None => []
                        end) cart.

(** No product has two entries. *)
Definition UniqueIds (cart : list CartItem.t) : Prop := NoDup (ids cart).

(** Every entry has a quantity of at least 1. *)
Definition PositiveQuantities (cart : list CartItem.t) : Prop :=
  Forall (fun item => 1 <= CartItem.quantity item) cart.

(** ** The rest of config/database.js *)

Module User.
Record t : Type := mk {
  id : string;
  email : string;
  password : string;
  firstName : string;
  lastName : string;
  role : string;
  createdAt : string
}.
End User.

Module database.

(** [getUserById: (id) => users.find(u => u.id === id)] *)
Definition getUserById (id : string) : state (list User.t) (option User.t) :=
  users <- get ;;
  ret (find (fun u => String.eqb (User.id u) id) users).

(** [getUserByEmail: (email) => users.find(u => u.email === email)] *)
Definition getUserByEmail (email : string)
  : state (list User.t) (option User.t) :=
  users <- get ;;
  ret (find (fun u => String.eqb (User.email u) email) users).

(** [createUser: (user) => { users.push(user); return user; }] *)
Definition createUser (user : User.t) : state (list User.t) User.t :=
  users <- get ;;
  put (users ++ [user]) ;;
  ret user.

(** [getProductById: (id) => products.find(p => p.id === id)] *)
Definition getProductById (productId : string)
  : state heap (option Product) :=
  h <- get ;;
  ret (find (fun p => String.eqb (id p) productId) (deref h db.products)).

(** [createProduct: (product) => { products.push(product); return product; }]
    The array grows in place. *)
Definition createProduct (product : Product) : state heap Product :=
  h <- get ;;
  put (update h db.products (deref h db.products ++ [product])) ;;
  ret product.

End database.

(** The product array after [db.createProduct(product)] on a database
    that held [catalog], and what [db.getProductById] finds in it. *)
Definition created (catalog : list Product) (product : Product)
  : list Product :=
  deref (snd (runState (database.createProduct product) [catalog]))
    db.products.

Definition lookup (catalog : list Product) (productId : string)
  : option Product :=
  fst (runState (database.getProductById productId) [catalog]).

(** ** Replies *)

(** [res.status(s).json({ success, message, data })]; [res.json] alone
    leaves the status at 200. *)
Module Reply.
Record t (A : Type) : Type := mk {
  status : Z;
  success : bool;
  message : option string;
  data : option A
}.
Arguments mk {A} _ _ _ _.
Arguments status {A} _.
Arguments success {A} _.
Arguments message {A} _.
Arguments data {A} _.
End Reply.

(** How a middleware or a controller ends: it calls [next()], it sends a
    reply, or it hands an error to [next(error)]. *)
Inductive outcome (A B : Type) : Type :=
| Next (a : A)
| Sent (r : Reply.t B)
| Failed (errorMessage : string).
Arguments Next {A B} _.
Arguments Sent {A B} _.
Arguments Failed {A B} _.

(** ** The single product, controllers/productController.js *)

Section ProductDetail.
(** [db.getReviewsByProduct] is not part of the database module as
    printed; the controller only passes its result on. *)
Variable Review : Type.
Variable getReviewsByProduct : string -> list Review.

(** [export const getProductById = (req, res, next) => ...] with [id] for
    [req.params.id]; [data] is the product with its reviews,
    [{ ...product, reviews }]. *)
Definition getProductById (productId : string)
  : state heap (Reply.t (Product * list Review)) :=
  product <- database.getProductById productId ;;
  match product with
  | None => ret (Reply.mk 404 false (Some "Product not found") None)
  | Some product =>
      let reviews := getReviewsByProduct productId in
      ret (Reply.mk 200 true None (Some (product, reviews)))
  end.

End ProductDetail.

(** ** middleware/errorHandler.js *)

(** The body the error handler sends. *)
Record ErrorBody : Type := mkErrorBody {
  error_status : Z;
  error_success : bool;
  error_message : string;
  error_stack : option string
}.

(** [errorHandler(err, req, res, next)]: [statusCode] is the status set
    on [res] so far, [production] is
    [process.env.NODE_ENV === 'production']. *)
Definition errorHandler (production : bool) (statusCode : Z)
    (err_message err_stack : string) : ErrorBody :=
  let statusCode := if statusCode =? 200 then 500 else statusCode in
  {| error_status := statusCode;
     error_success := false;
     error_message := err_message;
     error_stack := if production then None else Some err_stack |}.

(** [notFound] sets the status to 404 and passes on
    [new Error(`Not Found - ${req.originalUrl}`)]; the error handler is
    the next middleware. *)
Definition notFound (production : bool) (originalUrl err_stack : string)
  : ErrorBody :=
  errorHandler production 404 ("Not Found - " ++ originalUrl)%string err_stack.

(** ** middleware/auth.js *)

(** What a token carries: [{ id, email, role }]. *)
Module Payload.
Record t : Type := mk {
  id : string;
  email : string;
  role : string
}.
End Payload.

(** [s.split(sep)] for a separator of one character. *)
Fixpoint split (sep : ascii) (s : string) : list string :=
  match s with
  | EmptyString => [EmptyString]
  | String c s' =>
      if Ascii.eqb c sep then EmptyString :: split sep s'
      else match split sep s' with
           | piece :: pieces => String c piece :: pieces
           | [] => [String c EmptyString]
           end
  end.

Section Middleware.
(** [jwt.verify(token, process.env.JWT_SECRET)]: the decoded payload, or
    [None] when it throws. *)
Variable jwt_verify : string -> option Payload.t.

(** [authenticate]: [authorization] is [req.headers.authorization]; on
    success [req.user] is the decoded payload. *)
Definition authenticate (authorization : option string)
  : outcome Payload.t unit :=
  let token :=
    match authorization with
    | None => None
    | Some header => nth_error (split " " header) 1
    end in
  match token with
  | None =>
      Sent (Reply.mk 401 false (Some "Authentication required") None)
  | Some token =>
      if JS.truthy token then
        match jwt_verify token with
        | Some decoded => Next decoded
        | None =>
            Sent (Reply.mk 401 false (Some "Invalid or expired token") None)
        end
      else Sent (Reply.mk 401 false (Some "Authentication required") None)
  end.

(** [authorize(...roles)], after [authenticate] has set [req.user]. *)
Definition authorize (roles : list string) (user : Payload.t)
  : outcome Payload.t unit :=
  if existsb (String.eqb (Payload.role user)) roles then Next user
  else Sent (Reply.mk 403 false (Some "You do not have permission") None).

End Middleware.

(** ** Creating a product, controllers/productController.js *)

(** A field of a JSON body as a controller reads it: absent
    ([undefined]), a string, or another value ([null], a number, a
    boolean, an array or an object).  Of a value that is not a string the
    controllers below use its conversion to a string only, which is what
    [parseFloat] and [parseInt] read. *)
Module Field.
Inductive t : Type :=
| Missing
| Text (s : string)
| Other (shown : string).

(** [ToString(v)] *)
Definition to_string (v : t) : string :=
  match v with
  | Missing => "undefined"
  | Text s => s
  | Other shown => shown
  end.
End Field.

(** The record [createProduct] builds.  Nothing checks the body: the
    description and the category are stored as they came, the price is
    whatever [parseFloat] returns and the stock whatever [parseInt]
    returns.  The name is a string, since the slug is made from it. *)
Module NewProduct.
Record t : Type := mk {
  id : string;
  name : string;
  slug : string;
  description : Field.t;
  price : JS.number;
  categoryId : Field.t;
  sellerId : string;
  stock : JS.integer;
  status : string;
  rating : Z;
  reviewCount : Z;
  createdAt : string
}.
End NewProduct.

(** The five fields [createProduct] takes from [req.body]. *)
Module ProductBody.
Record t : Type := mk {
  name : Field.t;
  description : Field.t;
  price : Field.t;
  categoryId : Field.t;
  stock : Field.t
}.
End ProductBody.

(** The clock and the randomness a request meets: [Date.now()],
    [new Date().toISOString()] and the salt [bcrypt.hash] draws. *)
Record Environment : Type := mkEnvironment {
  now : Z;
  isoString : string;
  salt : string
}.

(** A number in a template literal: the decimal digits of an integer. *)
Definition decimal (n : Z) : string := NilZero.string_of_int (Z.to_int n).

(** [s.replace(/\s+/g, '-')]: every run of white space becomes one dash.
    [in_run] tells that the character before was white space. *)
Fixpoint dash_runs (in_run : bool) (s : string) : string :=
  match s with
  | EmptyString => EmptyString
  | String c s' =>
      if JS.is_ws c then
        if in_run then dash_runs true s'
        else String "-" (dash_runs true s')
      else String c (dash_runs false s')
  end.

(** [name.toLowerCase().replace(/\s+/g, '-')] *)
Definition slug_of (name : string) : string :=
  dash_runs false (JS.toLowerCase name).

Section CreateProduct.
(** The messages of the [TypeError]s the controller can throw: taking
    the fields of a body that is [undefined], reading [role] of
    [undefined], and calling [toLowerCase] on a name that is not a
    string.  Their wording is the engine's. *)
Variable fields_of_undefined : string.
Variable role_of_undefined : string.
Variable toLowerCase_of : Field.t -> string.

(** [export const createProduct = (req, res, next) => ...]: [user] is
    [req.user], set by [authenticate], and [body] is [req.body], which is
    [undefined] when no parser filled it.  The state is the user array
    and the product array of the database. *)
Definition createProduct (user : Payload.t) (body : option ProductBody.t)
    (env : Environment) (users : list User.t) (products : list NewProduct.t)
  : outcome unit NewProduct.t * list NewProduct.t :=
  match body with
  | None => (Failed fields_of_undefined, products)
  | Some body =>
      (* 1. check if user is a seller *)
      match fst (runState (database.getUserById (Payload.id user)) users) with
      | None => (Failed role_of_undefined, products)
      | Some stored =>
          if negb (String.eqb (User.role stored) "seller")
             && negb (String.eqb (User.role stored) "admin")
          then (Sent (Reply.mk 403 false
                        (Some "Only sellers can create products") None),
                products)
          else
            (* 2. create product *)
            match ProductBody.name body with
            | Field.Text name =>
                let product :=
                  {| NewProduct.id := ("prod-" ++ decimal (now env))%string;
                     NewProduct.name := name;
                     NewProduct.slug := slug_of name;
                     NewProduct.description := ProductBody.description body;
                     NewProduct.price :=
                       JS.parseFloat
                         (Field.to_string (ProductBody.price body));
                     NewProduct.categoryId := ProductBody.categoryId body;
                     NewProduct.sellerId := Payload.id user;
                     NewProduct.stock :=
                       JS.parseInteger
                         (Field.to_string (ProductBody.stock body));
                     NewProduct.status := "active";
                     NewProduct.rating := 0;
                     NewProduct.reviewCount := 0;
                     NewProduct.createdAt := isoString env |} in
                (* 3. send response *)
                (Sent (Reply.mk 201 true (Some "Product created successfully")
                         (Some product)),
                 products ++ [product])
            | notText => (Failed (toLowerCase_of notText), products)
            end
      end
  end.

Variable jwt_verify : string -> option Payload.t.

(** [router.post('/products', authenticate, authorize('seller', 'admin'),
    createProduct)], with the error handler behind it: the status of the
    answer and the product array afterwards. *)
Definition post_products (production : bool) (authorization : option string)
    (body : option ProductBody.t) (env : Environment) (users : list User.t)
    (products : list NewProduct.t) : Z * list NewProduct.t :=
  match authenticate jwt_verify authorization with
  | Sent r => (Reply.status r, products)
  | Failed e => (error_status (errorHandler production 200 e ""), products)
  | Next user =>
      match authorize ["seller"; "admin"] user with
      | Sent r => (Reply.status r, products)
      | Failed e => (error_status (errorHandler production 200 e ""), products)
      | Next user =>
          match createProduct user body env users products with
          | (Sent r, products') => (Reply.status r, products')
          | (Failed e, products') =>
              (error_status (errorHandler production 200 e ""), products')
          | (Next _, products') => (200, products')
          end
      end
  end.

End CreateProduct.

(** ** controllers/authController.js *)

(** [req.body] of a registration and of a login. *)
Module RegisterBody.
Record t : Type := mk {
  email : string;
  password : string;
  firstName : string;
  lastName : string
}.
End RegisterBody.

Module LoginBody.
Record t : Type := mk {
  email : string;
  password : string
}.
End LoginBody.

(** [const { password: _, ...userResponse } = user]: the user without
    the password. *)
Module UserResponse.
Record t : Type := mk {
  id : string;
  email : string;
  firstName : string;
  lastName : string;
  role : string;
  createdAt : string
}.

Definition without_password (user : User.t) : t :=
  mk (User.id user) (User.email user) (User.firstName user)
    (User.lastName user) (User.role user) (User.createdAt user).
End UserResponse.

(** [data: { user: userResponse, token }] *)
Record AuthData : Type := mkAuthData {
  auth_user : UserResponse.t;
  auth_token : string
}.

Section AuthController.
(** [bcrypt.hash(password, 10)] with the salt it draws,
    [bcrypt.compare(password, hash)], and
    [jwt.sign(payload, process.env.JWT_SECRET, { expiresIn: '7d' })] as
    it answers while one request is handled: a token carries the second
    it was signed in and the time it expires, so a request handled at
    another time meets another [jwt_sign]. *)
Variable bcrypt_hash : string -> string -> string.
Variable bcrypt_compare : string -> string -> bool.
Variable jwt_sign : Payload.t -> string.

Definition token_for (user : User.t) : string :=
  jwt_sign (Payload.mk (User.id user) (User.email user) (User.role user)).

(** [register] up to [await bcrypt.hash(...)]: the reply if the email is
    taken, nothing if the handler goes on. *)
Definition register_check (body : RegisterBody.t)
  : state (list User.t) (option (Reply.t AuthData)) :=
  existingUser <- database.getUserByEmail (RegisterBody.email body) ;;
  match existingUser with
  | Some _ =>
      ret (Some (Reply.mk 400 false
                   (Some "User with this email already exists") None))
  | None => ret None
  end.

(** [register] from the moment the hash is there. *)
Definition register_store (body : RegisterBody.t) (env : Environment)
    (hashedPassword : string) : state (list User.t) (Reply.t AuthData) :=
  let user :=
    {| User.id := ("user-" ++ decimal (now env))%string;
       User.email := RegisterBody.email body;
       User.password := hashedPassword;
       User.firstName := RegisterBody.firstName body;
       User.lastName := RegisterBody.lastName body;
       User.role := "buyer";
       User.createdAt := isoString env |} in
  user <- database.createUser user ;;
  let token := token_for user in
  ret (Reply.mk 201 true None
         (Some {| auth_user := UserResponse.without_password user; auth_token := token |})).

(** [export const register = async (req, res, next) => ...] when no other
    request runs while the password is hashed. *)
Definition register (body : RegisterBody.t) (env : Environment)
  : state (list User.t) (Reply.t AuthData) :=
  early <- register_check body ;;
  match early with
  | Some reply => ret reply
  | None =>
      register_store body env
        (bcrypt_hash (RegisterBody.password body) (salt env))
  end.

(** Two registrations whose checks both run before either stores its
    user: the second request arrives while the first awaits its hash.
    Both are taken to sign their tokens in the same second. *)
Definition register_overlapping (body1 body2 : RegisterBody.t)
    (env1 env2 : Environment)
  : state (list User.t) (option (Reply.t AuthData * Reply.t AuthData)) :=
  early1 <- register_check body1 ;;
  early2 <- register_check body2 ;;
  match early1, early2 with
  | None, None =>
      reply1 <- register_store body1 env1
                  (bcrypt_hash (RegisterBody.password body1) (salt env1)) ;;
      reply2 <- register_store body2 env2
                  (bcrypt_hash (RegisterBody.password body2) (salt env2)) ;;
      ret (Some (reply1, reply2))
  | _, _ => ret None
  end.

Definition invalid_credentials : Reply.t AuthData :=
  Reply.mk 401 false (Some "Invalid email or password") None.

(** [export const login = async (req, res, next) => ...]; it only reads
    the database. *)
Definition login (body : LoginBody.t)
  : state (list User.t) (Reply.t AuthData) :=
  user <- database.getUserByEmail (LoginBody.email body) ;;
  match user with
  | None => ret invalid_credentials
  | Some user =>
      if bcrypt_compare (LoginBody.password body) (User.password user) then
        let token := token_for user in
        ret (Reply.mk 200 true None
               (Some {| auth_user := UserResponse.without_password user;
                        auth_token := token |}))
      else ret invalid_credentials
  end.

End AuthController.

(** The characters of a string. *)
Definition chars (s : string) : list ascii := list_ascii_of_string s.

(** No character of [s] is a space. *)
Definition Spaceless (s : string) : Prop := ~ In " "%char (chars s).

(** The user a registration stores. *)
Definition new_user (bcrypt_hash : string -> string -> string)
    (body : RegisterBody.t) (env : Environment) : User.t :=
  {| User.id := ("user-" ++ decimal (now env))%string;
     User.email := RegisterBody.email body;
     User.password := bcrypt_hash (RegisterBody.password body) (salt env);
     User.firstName := RegisterBody.firstName body;
     User.lastName := RegisterBody.lastName body;
     User.role := "buyer";
     User.createdAt := isoString env |}.

(** ** The cart on the server: config/database.js and
    controllers/cartController.js *)

(** A row of the database's cart array. *)
Module CartRow.
Record t : Type := mk {
  id : string;
  userId : string;
  productId : string;
  quantity : Z;
  addedAt : string
}.
End CartRow.

Module cartTable.

(** [getCartByUser: (userId) => cart.filter(c => c.userId === userId)] *)
Definition getCartByUser (userId : string)
  : state (list CartRow.t) (list CartRow.t) :=
  cart <- get ;;
  ret (filter (fun c => String.eqb (CartRow.userId c) userId) cart).

(** [addToCart: (item) => { cart.push(item); return item; }] *)
Definition addToCart (item : CartRow.t) : state (list CartRow.t) CartRow.t :=
  cart <- get ;;
  put (cart ++ [item]) ;;
  ret item.

End cartTable.

(** What the cart controller sends: [{ message }] with status 404, or
    [{ success: true, message, data }]. *)
Inductive CartReply : Type :=
| CartNotFound (message : string)
| CartAdded (message : string) (data : CartRow.t).

(** [export const addToCart = (req, res) => ...] of the cart controller:
    [user] is [req.user], [productId] and [quantity] come from the body,
    [catalog] is the product array the lookup reads. *)
Definition cart_addToCart (user : Payload.t) (productId : string)
    (quantity : Z) (env : Environment) (catalog : list Product)
  : state (list CartRow.t) CartReply :=
  let userId := Payload.id user in
  match lookup catalog productId with
  | None => ret (CartNotFound "Product not found")
  | Some _ =>
      let cartItem :=
        {| CartRow.id := ("cart-" ++ decimal (now env))%string;
           CartRow.userId := userId;
           CartRow.productId := productId;
           CartRow.quantity := quantity;
           CartRow.addedAt := isoString env |} in
      cartTable.addToCart cartItem ;;
      ret (CartAdded "Item added to cart" cartItem)
  end.

(** The rows of [userId] in a cart array. *)
Definition rows_of (userId : string) (cart : list CartRow.t)
  : list CartRow.t :=
  fst (runState (cartTable.getCartByUser userId) cart).

(** ** A registration to try things on *)

Definition ada : RegisterBody.t :=
  RegisterBody.mk "ada@example.com" "secret" "Ada" "Lovelace".

Definition monday : Environment :=
  mkEnvironment 1700000000000 "2023-11-14T22:13:20.000Z" "salt".

(** Stand-ins for the libraries: a hash that prefixes the salt, a
    comparison that strips it again, and a token that is the user's id. *)
Definition toy_hash (password salt : string) : string :=
  (salt ++ "$" ++ password)%string.

Definition toy_compare (password hash : string) : bool :=
  match split "$" hash with
  | [_; p] => String.eqb p password
  | _ => false
  end.

Definition toy_sign (payload : Payload.t) : string := Payload.id payload.

(** The same signer a week later: the token tells when it was signed. *)
Definition toy_sign_later (payload : Payload.t) : string :=
  (Payload.id payload ++ "@1700604800")%string.

(** A seller, the one token that verifies, and two bodies of a product:
    one with a name and one without. *)
Definition grace : User.t :=
  User.mk "user-7" "grace@example.com" "salt$pw" "Grace" "Hopper" "seller"
    "2023-11-14T22:13:20.000Z".

Definition toy_verify (token : string) : option Payload.t :=
  if String.eqb token "grace" then
    Some (Payload.mk "user-7" "grace@example.com" "seller")
  else None.

Definition lamp : ProductBody.t :=
  ProductBody.mk (Field.Text "Desk  Lamp") (Field.Text "A lamp")
    (Field.Other "19.5") Field.Missing (Field.Text "3").

Definition nameless : ProductBody.t :=
  ProductBody.mk Field.Missing (Field.Text "A lamp") (Field.Other "19.5")
    Field.Missing (Field.Text "3").

(** ** The built-ins on examples *)

Example parseInt_ex1 : JS.parseInt "42" = Some 42. Proof. reflexivity. Qed.
Example parseInt_ex2 : JS.parseInt "  -7px" = Some (-7). Proof. reflexivity. Qed.
Example parseInt_ex3 : JS.parseInt "abc" = None. Proof. reflexivity. Qed.
Example parseInt_ex4 : JS.parseInt "0x1f" = Some 31. Proof. reflexivity. Qed.
Example parseInt_ex5 : JS.parseInt "2.9" = Some 2. Proof. reflexivity. Qed.
Example parseFloat_ex1 : JS.parseFloat "15" = JS.Finite (15 # 1). Proof. reflexivity. Qed.
Example parseFloat_ex2 : JS.parseFloat "2.5" = JS.Finite (5 # 2). Proof. reflexivity. Qed.
Example parseFloat_ex3 : JS.parseFloat "abc" = JS.NaN. Proof. reflexivity. Qed.
Example parseFloat_ex4 : JS.parseFloat ".5e1x" = JS.Finite (5 # 1). Proof. reflexivity. Qed.
Example parseFloat_ex5 : JS.parseFloat "-Infinity" = JS.Infinity true. Proof. reflexivity. Qed.
Example parseFloat_ex6 : JS.parseFloat "." = JS.NaN. Proof. reflexivity. Qed.
Example parseFloat_ex7 : JS.parseFloat "5.e2" = JS.Finite (500 # 1). Proof. reflexivity. Qed.
Example parseFloat_ex8 : JS.parseFloat "1e" = JS.Finite (1 # 1). Proof. reflexivity. Qed.

(** Numbers are read to the nearest binary64: two spellings of one
    double compare equal, integers above 2^53 lose their low bits, and
    what is beyond the range is infinite. *)
Example parseFloat_ex9 :
  JS.parseFloat "0.1" = JS.Finite (3602879701896397 # 36028797018963968).
Proof. vm_compute. reflexivity. Qed.
Example parseFloat_ex10 :
  JS.parseFloat "0.10000000000000001" = JS.parseFloat "0.1".
Proof. vm_compute. reflexivity. Qed.
Example parseFloat_ex11 : JS.parseFloat "1e309" = JS.Infinity false.
Proof. vm_compute. reflexivity. Qed.
Example parseFloat_ex12 : JS.parseFloat "2e-324" = JS.Finite (0 # 1).
Proof. vm_compute. reflexivity. Qed.
Example parseInt_ex6 :
  JS.parseInt "9007199254740993" = Some 9007199254740992.
Proof. vm_compute. reflexivity. Qed.
Example parseInt_ex7 :
  JS.parseInteger "1e5" = JS.Whole 1
  /\ JS.parseInteger huge = JS.Unbounded false
  /\ JS.parseInt huge = None.
Proof. vm_compute. repeat split. Qed.

(** ** Facts about the built-ins *)

Section SortFacts.
Context {A : Type}.
Variable compareFn : A -> A -> Q.

Local Abbreviation before := (before compareFn).

Lemma insert_perm x l : Permutation (x :: l) (JS.insert compareFn x l).
Proof.
  induction l as [|y l IH]; simpl; [reflexivity|].
  destruct (Qle_bool (compareFn x y) 0); [reflexivity|].
  rewrite perm_swap. now apply perm_skip.
Qed.

Lemma sort_perm l : Permutation l (JS.sort compareFn l).
Proof.
  induction l as [|x l IH]; simpl; [reflexivity|].
  rewrite <- insert_perm. now apply perm_skip.
Qed.

Lemma sort_length l : List.length (JS.sort compareFn l) = List.length l.
Proof. symmetry. apply Permutation_length, sort_perm. Qed.

(** Insertion passes only elements that must come first, so it cannot
    reorder a family of elements that tie with one another. *)
Lemma filter_insert (f : A -> bool) x l :
  (forall a b, f a = true -> f b = true -> before a b) ->
  filter f (JS.insert compareFn x l) = filter f (x :: l).
Proof.
  intros Hf. induction l as [|y l IH]; [reflexivity|].
  simpl. destruct (Qle_bool (compareFn x y) 0) eqn:E; [reflexivity|].
  simpl in *. rewrite IH.
  destruct (f x) eqn:Ex; [|reflexivity].
  destruct (f y) eqn:Ey; [|reflexivity].
  apply (Hf x y) in Ex; [|assumption].
  apply Qle_bool_iff in Ex. congruence.
Qed.

Lemma filter_sort (f : A -> bool) l :
  (forall a b, f a = true -> f b = true -> before a b) ->
  filter f (JS.sort compareFn l) = filter f l.
Proof.
  intros Hf. induction l as [|x l IH]; [reflexivity|].
  simpl JS.sort. rewrite filter_insert by assumption.
  simpl. now rewrite IH.
Qed.

Lemma insert_head x l :
  Forall (before x) l -> JS.insert compareFn x l = x :: l.
Proof.
  destruct l as [|y l]; [reflexivity|].
  intros H. apply Forall_inv in H. apply Qle_bool_iff in H.
  simpl. now rewrite H.
Qed.

(** Sorting a sorted array changes nothing. *)
Lemma sort_sorted_id l :
  StronglySorted before l -> JS.sort compareFn l = l.
Proof.
  induction 1 as [|x l Hs IH Hx]; [reflexivity|].
  simpl. rewrite IH. now apply insert_head.
Qed.

Hypothesis before_total : forall a b, ~ before a b -> before b a.
Hypothesis before_trans :
  forall a b c, before a b -> before b c -> before a c.

Lemma insert_sorted x l :
  StronglySorted before l -> StronglySorted before (JS.insert compareFn x l).
Proof.
  induction 1 as [|y l Hs IH Hy]; simpl.
  - repeat constructor.
  - destruct (Qle_bool (compareFn x y) 0) eqn:E.
    + apply Qle_bool_iff in E. constructor; [now constructor|].
      constructor; [exact E|].
      eapply Forall_impl; [|exact Hy]. intros z Hz. now apply before_trans with y.
    + assert (Hyx : before y x).
      { apply before_total. intros H. apply Qle_bool_iff in H. congruence. }
      constructor; [exact IH|].
      eapply Permutation_Forall; [apply insert_perm|].
      now constructor.
Qed.

Lemma sort_sorted l : StronglySorted before (JS.sort compareFn l).
Proof.
  induction l as [|x l IH]; simpl; [constructor|]. now apply insert_sorted.
Qed.

Lemma sort_idempotent l :
  JS.sort compareFn (JS.sort compareFn l) = JS.sort compareFn l.
Proof. apply sort_sorted_id, sort_sorted. Qed.
End SortFacts.

Section ListFacts.
Context {A : Type}.

Lemma firstn_plus (a b : nat) (l : list A) :
  firstn (a + b) l = firstn a l ++ firstn b (skipn a l).
Proof.
  revert l. induction a as [|a IH]; intros l; [reflexivity|].
  destruct l as [|x l]; simpl.
  - now rewrite firstn_nil.
  - now rewrite IH.
Qed.

Lemma In_firstn n (l : list A) x : In x (firstn n l) -> In x l.
Proof.
  intros H. rewrite <- (firstn_skipn n l). apply in_or_app. now left.
Qed.

Lemma In_skipn n (l : list A) x : In x (skipn n l) -> In x l.
Proof.
  intros H. rewrite <- (firstn_skipn n l). apply in_or_app. now right.
Qed.

Lemma StronglySorted_skipn (R : A -> A -> Prop) n l :
  StronglySorted R l -> StronglySorted R (skipn n l).
Proof.
  revert l. induction n as [|n IH]; intros l H; [exact H|].
  destruct l as [|x l]; [constructor|].
  simpl. apply IH. now inversion H.
Qed.

Lemma StronglySorted_firstn (R : A -> A -> Prop) n l :
  StronglySorted R l -> StronglySorted R (firstn n l).
Proof.
  intros H. revert n. induction H as [|x l Hs IH Hx]; intros n.
  - rewrite firstn_nil. constructor.
  - destruct n as [|n]; simpl; constructor; [apply IH|].
    apply Forall_forall. intros y Hy.
    apply (proj1 (Forall_forall _ _) Hx).
    revert Hy. apply In_firstn.
Qed.

Lemma StronglySorted_weaken (R R' : A -> A -> Prop) l :
  (forall a b, R a b -> R' a b) ->
  StronglySorted R l -> StronglySorted R' l.
Proof.
  intros HR. induction 1 as [|x l Hs IH Hx]; constructor; [exact IH|].
  eapply Forall_impl; [|exact Hx]. intros b. apply HR.
Qed.

Lemma StronglySorted_filter (R : A -> A -> Prop) (f : A -> bool) l :
  StronglySorted R l -> StronglySorted R (filter f l).
Proof.
  induction 1 as [|x l Hs IH Hx]; simpl; [constructor|].
  destruct (f x); [|exact IH]. constructor; [exact IH|].
  apply Forall_forall. intros y Hy. apply filter_In in Hy.
  exact (proj1 (Forall_forall _ _) Hx y (proj1 Hy)).
Qed.

Lemma filter_filter (f g : A -> bool) l :
  filter g (filter f l) = filter (fun x => f x && g x) l.
Proof.
  induction l as [|x l IH]; [reflexivity|].
  simpl. destruct (f x); simpl; [destruct (g x)|]; now rewrite IH.
Qed.

(** *** [slice] *)

Lemma slice_sorted (R : A -> A -> Prop) (l : list A) s e :
  StronglySorted R l -> StronglySorted R (JS.slice l s e).
Proof.
  intros H. unfold JS.slice.
  now apply StronglySorted_firstn, StronglySorted_skipn.
Qed.

Lemma slice_incl (l : list A) s e : incl (JS.slice l s e) l.
Proof.
  unfold JS.slice. intros x Hx.
  apply In_firstn in Hx. revert Hx. apply In_skipn.
Qed.

Lemma slice_nil s e : JS.slice (@nil A) s e = [].
Proof. unfold JS.slice. now rewrite skipn_nil, firstn_nil. Qed.

(** A window that starts at a non-negative index. *)
Lemma slice_window (l : list A) (s n : Z) :
  0 <= s -> 0 <= n ->
  JS.slice l (JS.Whole s) (JS.Whole (s + n)) =
  firstn (Z.to_nat n) (skipn (Z.to_nat s) l).
Proof.
  intros Hs Hn. unfold JS.slice, JS.relative_index.
  destruct (Z.ltb_spec s 0); [lia|].
  destruct (Z.ltb_spec (s + n) 0); [lia|].
  set (len := Z.of_nat (List.length l)).
  destruct (Z.le_gt_cases len s) as [Hle|Hgt].
  - rewrite (skipn_all2 l) by (subst len; lia).
    rewrite skipn_all2 by lia. now rewrite !firstn_nil.
  - rewrite (Z.min_l s len) by lia.
    destruct (Z.le_gt_cases (s + n) len) as [Hle'|Hgt'].
    + rewrite Z.min_l by lia. f_equal. lia.
    + rewrite Z.min_r by lia.
      rewrite !firstn_all2; [reflexivity| |]; rewrite length_skipn; subst len; lia.
Qed.

Lemma slice_beyond (l : list A) (s : Z) (e : JS.integer) :
  Z.of_nat (List.length l) <= s -> JS.slice l (JS.Whole s) e = [].
Proof.
  intros H. unfold JS.slice. cbn [JS.relative_index].
  destruct (Z.ltb_spec s 0); [lia|].
  rewrite skipn_all2 by lia. apply firstn_nil.
Qed.

(** Nothing lies between two indices when the second is not behind the
    first. *)
Lemma slice_empty (l : list A) (s e : JS.integer) :
  JS.relative_index (Z.of_nat (List.length l)) e
  <= JS.relative_index (Z.of_nat (List.length l)) s ->
  JS.slice l s e = [].
Proof.
  intros H. unfold JS.slice.
  replace (Z.to_nat _) with 0%nat by lia. reflexivity.
Qed.

Lemma relative_index_range len k :
  0 <= len -> 0 <= JS.relative_index len k <= len.
Proof.
  intros H. destruct k as [|[|]|k]; cbn [JS.relative_index]; try lia.
  destruct (Z.ltb_spec k 0); lia.
Qed.

(** The window of a page whose number or size is not a finite number is
    empty: its bounds are [NaN] or the same infinity, or the second one
    is [NaN], which [slice] reads as 0. *)
Lemma slice_not_finite (l : list A) (p n : JS.integer) :
  JS.finite p = None \/ JS.finite n = None ->
  JS.slice l (JS.mul (JS.sub p (JS.Whole 1)) n)
    (JS.add (JS.mul (JS.sub p (JS.Whole 1)) n) n) = [].
Proof.
  intros H. apply slice_empty.
  pose proof (relative_index_range (Z.of_nat (List.length l))) as Hr.
  destruct p as [|s|p], n as [|s'|n]; cbn in H;
    try (destruct H; discriminate);
    cbn [JS.sub JS.opp JS.add JS.mul JS.relative_index];
    repeat match goal with
           | |- context [?a <? ?b] => destruct (a <? b)
           | |- context [?a =? ?b] => destruct (a =? b)
           | b : bool |- _ => destruct b
           end;
    cbn [JS.add JS.relative_index Bool.eqb xorb]; lia.
Qed.

(** A window never holds more elements than it is wide, wherever it
    starts. *)
Lemma slice_length (l : list A) (s : JS.integer) (n : Z) :
  0 <= n ->
  Z.of_nat (List.length (JS.slice l s (JS.add s (JS.Whole n)))) <= n.
Proof.
  intros Hn. unfold JS.slice. rewrite length_firstn.
  destruct s as [|neg|s]; cbn [JS.add JS.relative_index]; [lia|lia|].
  destruct (Z.ltb_spec s 0), (Z.ltb_spec (s + n) 0); lia.
Qed.

(** Consecutive windows of width [n] tile a prefix of the array. *)
Lemma windows_concat (l : list A) (n m : nat) :
  List.concat (map (fun k => firstn n (skipn (k * n) l)) (seq 0 m)) =
  firstn (m * n) l.
Proof.
  induction m as [|m IH]; [reflexivity|].
  rewrite seq_S, map_app, concat_app, IH. simpl.
  rewrite app_nil_r, (Nat.add_comm n), firstn_plus. reflexivity.
Qed.
End ListFacts.

(** *** [includes] *)

Lemma prefix_spec t s :
  String.prefix t s = true <-> exists post, s = (t ++ post)%string.
Proof.
  revert s. induction t as [|c t IH]; intros s.
  - split; [intros _; now exists s | now destruct s].
  - destruct s as [|d s]; simpl.
    + split; [discriminate | intros [post H]; discriminate].
    + destruct (Ascii.ascii_dec c d) as [Heq|Hne].
      * rewrite IH. split; intros [post H]; exists post; congruence.
      * split; [discriminate | intros [post H]]. congruence.
Qed.

Lemma includes_unfold s t :
  JS.includes s t =
  if String.prefix t s then true
  else match s with
       | EmptyString => false
       | String _ s' => JS.includes s' t
       end.
Proof. destruct s; reflexivity. Qed.

Lemma includes_spec s t : JS.includes s t = true <-> Substring t s.
Proof.
  unfold Substring. induction s as [|c s IH]; rewrite includes_unfold;
    destruct (String.prefix _ _) eqn:E.
  - split; [intros _ | reflexivity].
    apply prefix_spec in E. destruct E as [post E]. now exists ""%string, post.
  - split; [discriminate|]. intros (pre & post & H).
    destruct pre; [|discriminate]. simpl in H.
    assert (String.prefix t "" = true) by (apply prefix_spec; now exists post).
    congruence.
  - split; [intros _ | reflexivity].
    apply prefix_spec in E. destruct E as [post E]. now exists ""%string, post.
  - rewrite IH. split; intros (pre & post & H).
    + exists (String c pre), post. simpl. now rewrite H.
    + destruct pre as [|d pre].
      * simpl in H.
        assert (String.prefix t (String c s) = true)
          by (apply prefix_spec; now exists post).
        congruence.
      * exists pre, post. simpl in H. congruence.
Qed.

(** ** The compare functions *)

Lemma before_price_asc a b : before price_asc a b <-> price_le a b.
Proof. unfold before, price_asc, price_le. split; intros H; lra. Qed.

Lemma before_price_desc a b : before price_desc a b <-> price_ge a b.
Proof. unfold before, price_desc, price_ge. split; intros H; lra. Qed.

Lemma before_rating_desc a b : before rating_desc a b <-> rating_ge a b.
Proof. unfold before, rating_desc, rating_ge. split; intros H; lra. Qed.

Lemma price_asc_consistent : Consistent price_asc price.
Proof.
  split; unfold before, price_asc; intros; lra.
Qed.

Lemma price_desc_consistent : Consistent price_desc price.
Proof.
  split; unfold before, price_desc; intros; lra.
Qed.

Lemma rating_desc_consistent : Consistent rating_desc rating.
Proof.
  split; unfold before, rating_desc; intros; lra.
Qed.

Lemma sort_stable f key l :
  Consistent f key -> Stable key l (JS.sort f l).
Proof.
  intros Hc. split; [apply sort_perm|].
  intros k. unfold with_key. apply filter_sort.
  intros a b Ha Hb. apply (cons_tie _ _ Hc).
  apply Qeq_bool_iff in Ha, Hb. now rewrite Ha, Hb.
Qed.

Lemma sort_ordered f key l :
  Consistent f key -> StronglySorted (before f) (JS.sort f l).
Proof.
  intros Hc. apply sort_sorted; [apply (cons_total _ _ Hc) | apply (cons_trans _ _ Hc)].
Qed.

(** ** The controller *)

Lemma strict_eq_true x lit : strict_eq x lit = true <-> x = Some lit.
Proof.
  destruct x as [s|]; simpl; [|split; discriminate].
  rewrite String.eqb_eq. split; congruence.
Qed.

Lemma truthy_true s : JS.truthy s = true <-> s <> "".
Proof. destruct s; simpl; split; congruence. Qed.

(** The request, step by step through the heap, comes to this. *)
Lemma run_eq c q :
  run c q =
  ({| success := true;
      products :=
        JS.slice (arrange q (survivors q c)) (startIndex q) (endIndex q);
      pagination :=
        {| page := pageNumber q;
           limit := pageSize q;
           total := List.length (arrange q (survivors q c));
           pages := JS.ceil_div (List.length (arrange q (survivors q c)))
                      (limitValue q) |} |},
   if filtering q then c else arrange q c).
Proof.
  destruct q as [cat se mi ma so pg li].
  unfold run, getProducts, survivors, filtering, arrange, compareFn,
    startIndex, endIndex, pageNumber, pageSize, pageValue, limitValue;
    cbn [Query.category Query.search Query.minPrice Query.maxPrice
         Query.sort Query.page Query.limit].
  destruct (strict_eq so "price_asc");
    [|destruct (strict_eq so "price_desc");
      [|destruct (strict_eq so "rating")]];
    destruct cat as [[|? ?]|]; destruct se as [[|? ?]|];
    destruct mi as [[|? ?]|]; destruct ma as [[|? ?]|]; reflexivity.
Qed.

Lemma respond_eq c q :
  respond c q =
  {| success := true;
     products :=
       JS.slice (arrange q (survivors q c)) (startIndex q) (endIndex q);
     pagination :=
       {| page := pageNumber q;
          limit := pageSize q;
          total := List.length (arrange q (survivors q c));
          pages := JS.ceil_div (List.length (arrange q (survivors q c)))
                     (limitValue q) |} |}.
Proof. unfold respond. now rewrite run_eq. Qed.

(** What is echoed is the finite part of what the window is computed
    from. *)
Lemma finite_whole x n : JS.finite x = Some n -> x = JS.Whole n.
Proof. destruct x; cbn; congruence. Qed.

Lemma pageNumber_value q p : pageNumber q = Some p -> pageValue q = JS.Whole p.
Proof. apply finite_whole. Qed.

Lemma pageSize_value q n : pageSize q = Some n -> limitValue q = JS.Whole n.
Proof. apply finite_whole. Qed.

(** The window of a page whose number and size are finite. *)
Lemma finite_window q p n :
  pageNumber q = Some p -> pageSize q = Some n ->
  startIndex q = JS.Whole ((p - 1) * n)
  /\ endIndex q = JS.Whole ((p - 1) * n + n).
Proof.
  intros Hp Hn. unfold endIndex, startIndex.
  rewrite (pageNumber_value _ _ Hp), (pageSize_value _ _ Hn).
  split; reflexivity.
Qed.

Lemma catalog_after_eq c q :
  catalog_after c q = if filtering q then c else arrange q c.
Proof. unfold catalog_after. now rewrite run_eq. Qed.

Lemma arrange_perm q l : Permutation l (arrange q l).
Proof.
  unfold arrange. destruct (compareFn q); [apply sort_perm | reflexivity].
Qed.

Lemma arrange_length q l : List.length (arrange q l) = List.length l.
Proof. symmetry. apply Permutation_length, arrange_perm. Qed.

(** *** Filtering *)

Lemma filter_true (l : list Product) : filter (fun _ => true) l = l.
Proof. induction l as [|x l IH]; simpl; congruence. Qed.

Lemma keep_if_filter x f l : keep_if x f l = filter (check x f) l.
Proof.
  unfold keep_if, check. destruct x as [s|]; [|now rewrite filter_true].
  destruct (JS.truthy s); [reflexivity | now rewrite filter_true].
Qed.

(** The four passes keep what a single pass with the conjunction keeps. *)
Lemma survivors_filter q c : survivors q c = filter (matches q) c.
Proof.
  unfold survivors, matches. rewrite !keep_if_filter, !filter_filter.
  apply filter_ext. intros p. now rewrite !andb_assoc.
Qed.

Lemma check_spec x f p :
  check x f p = true <-> forall s, supplied x s -> f s p = true.
Proof.
  unfold check, supplied. destruct x as [s|].
  - destruct (JS.truthy s) eqn:E.
    + apply truthy_true in E. split.
      * intros H s' [Hs' _]. congruence.
      * intros H. apply H. now split.
    + split; [|reflexivity]. intros _ s' [Hs' Hne].
      injection Hs' as <-. apply truthy_true in Hne. congruence.
  - split; [|reflexivity]. intros _ s [Hs _]. discriminate.
Qed.

Lemma by_category_spec s p : by_category s p = true <-> categoryId p = Some s.
Proof. apply strict_eq_true. Qed.

Lemma by_search_spec s p :
  by_search s p = true <->
  Substring (JS.toLowerCase s) (JS.toLowerCase (name p))
  \/ Substring (JS.toLowerCase s) (JS.toLowerCase (description p)).
Proof.
  unfold by_search. now rewrite orb_true_iff, !includes_spec.
Qed.

Lemma ge_spec x y : JS.ge x y = true <-> AtLeast x y.
Proof.
  destruct y as [|neg|y]; simpl; [split; [discriminate|tauto] | tauto |].
  apply Qle_bool_iff.
Qed.

Lemma le_spec x y : JS.le x y = true <-> AtMost x y.
Proof.
  destruct y as [|neg|y]; simpl; [split; [discriminate|tauto] | |].
  - destruct neg; simpl; split; congruence.
  - apply Qle_bool_iff.
Qed.

Lemma matches_spec q p : matches q p = true <-> Satisfies q p.
Proof.
  unfold matches. rewrite !andb_true_iff, !check_spec. split.
  - intros [[[H1 H2] H3] H4]. split; intros s Hs.
    + now apply by_category_spec, H1.
    + now apply by_search_spec, H2.
    + now apply ge_spec, H3.
    + now apply le_spec, H4.
  - intros [H1 H2 H3 H4]. repeat split; intros s Hs.
    + now apply by_category_spec, H1.
    + now apply by_search_spec, H2.
    + now apply ge_spec, H3.
    + now apply le_spec, H4.
Qed.

(** *** The sorted order is determined *)

Lemma with_key_cons key k x l :
  with_key key k (x :: l) =
  if Qeq_bool (key x) k then x :: with_key key k l else with_key key k l.
Proof. reflexivity. Qed.

(** A stable sort has no freedom: two sorted arrangements of the same
    products that keep products of equal key in the same order are equal.
    So every stable implementation of [Array.prototype.sort] returns what
    [JS.sort] returns. *)
Lemma sorted_stable_unique f key l1 l2 :
  Consistent f key ->
  StronglySorted (before f) l1 -> StronglySorted (before f) l2 ->
  Permutation l1 l2 ->
  (forall k, with_key key k l1 = with_key key k l2) ->
  l1 = l2.
Proof.
  intros Hc H1. revert l2.
  induction H1 as [|x t1 Hs1 IH Hx]; intros l2 H2 Hp Hk.
  - now apply Permutation_nil in Hp.
  - destruct l2 as [|y t2]; [symmetry in Hp; now apply Permutation_nil in Hp|].
    inversion H2 as [|? ? Hs2 Hy]; subst.
    assert (Hxy : (key x == key y)%Q).
    { assert (Hx2 : In x (y :: t2))
        by (eapply Permutation_in; [exact Hp | now left]).
      assert (Hy1 : In y (x :: t1))
        by (eapply Permutation_in; [symmetry; exact Hp | now left]).
      destruct Hx2 as [->|Hx2]; [reflexivity|].
      destruct Hy1 as [->|Hy1]; [reflexivity|].
      apply (cons_antisym _ _ Hc).
      - exact (proj1 (Forall_forall _ _) Hx y Hy1).
      - exact (proj1 (Forall_forall _ _) Hy x Hx2). }
    assert (E : x = y).
    { specialize (Hk (key x)). rewrite !with_key_cons in Hk.
      rewrite (proj2 (Qeq_bool_iff (key x) (key x))) in Hk by reflexivity.
      rewrite (proj2 (Qeq_bool_iff (key y) (key x))) in Hk by (now symmetry).
      congruence. }
    subst y. f_equal. apply IH.
    + exact Hs2.
    + now apply Permutation_cons_inv in Hp.
    + intros k. specialize (Hk k). rewrite !with_key_cons in Hk.
      destruct (Qeq_bool (key x) k); congruence.
Qed.

Lemma stable_sort_unique f key l l' :
  Consistent f key ->
  Stable key l l' -> StronglySorted (before f) l' -> l' = JS.sort f l.
Proof.
  intros Hc [Hp Hk] Hs.
  destruct (sort_stable f key l Hc) as [Hp' Hk'].
  apply (sorted_stable_unique f key); auto.
  - now apply sort_ordered with key.
  - transitivity l; [symmetry; exact Hp | exact Hp'].
  - intros k. now rewrite Hk, Hk'.
Qed.

(** *** Sorting and paging *)

Lemma survivors_idle q l : filtering q = false -> survivors q l = l.
Proof.
  unfold filtering, survivors, keep_if, JS.truthy_param.
  destruct q as [cat se mi ma so pg li]; simpl.
  intros H. repeat (apply orb_false_elim in H; destruct H as [H ?]).
  destruct cat as [[|]|], se as [[|]|], mi as [[|]|], ma as [[|]|];
    try discriminate; reflexivity.
Qed.

Lemma compareFn_none q :
  Query.sort q <> Some "price_asc" ->
  Query.sort q <> Some "price_desc" ->
  Query.sort q <> Some "rating" ->
  compareFn q = None.
Proof.
  intros H1 H2 H3. unfold compareFn.
  destruct (strict_eq (Query.sort q) "price_asc") eqn:E1;
    [apply strict_eq_true in E1; contradiction|].
  destruct (strict_eq (Query.sort q) "price_desc") eqn:E2;
    [apply strict_eq_true in E2; contradiction|].
  destruct (strict_eq (Query.sort q) "rating") eqn:E3;
    [apply strict_eq_true in E3; contradiction|].
  reflexivity.
Qed.

Lemma arrange_none q l : compareFn q = None -> arrange q l = l.
Proof. unfold arrange. now intros ->. Qed.

(** A request that filters leaves the database's array alone: it sorts
    the copy [filter] made. *)
Lemma catalog_kept_when_filtering c q :
  filtering q = true -> catalog_after c q = c.
Proof. intros H. now rewrite catalog_after_eq, H. Qed.

(** Without a filter, a recognised sort key sorts the database's array
    itself. *)
Lemma catalog_sorted_when_not_filtering c q f :
  filtering q = false -> compareFn q = Some f ->
  catalog_after c q = JS.sort f c.
Proof.
  intros H Hf. rewrite catalog_after_eq, H. unfold arrange. now rewrite Hf.
Qed.

(** ** The listing *)

(** C1: every returned product satisfies all the active filters together
    (category equal, lower-cased search term inside the lower-cased name or
    description, price within the supplied bounds), and the total is the
    number of catalog products that satisfy them all ([matches] decides
    [Satisfies]). *)
Theorem filter_conjunction c q :
  Forall (Satisfies q) (products (respond c q))
  /\ incl (products (respond c q)) (filter (matches q) c)
  /\ total (pagination (respond c q)) = List.length (filter (matches q) c)
  /\ (forall p, matches q p = true <-> Satisfies q p).
Proof.
  rewrite respond_eq. cbn [products pagination total].
  rewrite arrange_length, survivors_filter.
  assert (Hin : incl (JS.slice (arrange q (filter (matches q) c))
                        (startIndex q) (endIndex q))
                     (filter (matches q) c)).
  { intros p Hp. apply slice_incl in Hp.
    eapply Permutation_in; [symmetry; apply arrange_perm | exact Hp]. }
  repeat split; try (apply matches_spec); auto.
  apply Forall_forall. intros p Hp. apply Hin, filter_In in Hp.
  now apply matches_spec.
Qed.

(** C2: with no sort key nothing is sorted: the listing is the page window
    of the matching products in catalog order, the database's array is
    untouched, and the listing runs from newest to oldest whenever the
    catalog already does. *)
Theorem absent_sort_keeps_catalog_order c q :
  products (respond c (Query.with_sort q None))
  = JS.slice (filter (matches q) c) (startIndex q) (endIndex q)
  /\ catalog_after c (Query.with_sort q None) = c
  /\ (StronglySorted newer_or_same c ->
      StronglySorted newer_or_same
        (products (respond c (Query.with_sort q None)))).
Proof.
  assert (Hn : compareFn (Query.with_sort q None) = None) by reflexivity.
  assert (E : products (respond c (Query.with_sort q None))
              = JS.slice (filter (matches q) c) (startIndex q) (endIndex q)).
  { rewrite respond_eq. cbn [products].
    now rewrite arrange_none, survivors_filter by exact Hn. }
  split; [exact E|]. split.
  - rewrite catalog_after_eq, arrange_none by exact Hn.
    now destruct (filtering _).
  - intros H. rewrite E. now apply slice_sorted, StronglySorted_filter.
Qed.

(** Two products stored oldest first are listed oldest first. *)
Lemma default_listing_is_not_newest_first :
  products (respond [prodA; prodB] Query.empty) = [prodA; prodB]
  /\ ~ StronglySorted newer_or_same
        (products (respond [prodA; prodB] Query.empty)).
Proof.
  split; [reflexivity|].
  intros H. change (products _) with [prodA; prodB] in H.
  inversion H as [|? ? _ Hall]. apply Forall_inv in Hall.
  vm_compute in Hall. discriminate.
Qed.

(** C3: a sorted listing without filters reorders the database's own
    product array. *)
Theorem sorted_listing_reorders_the_database :
  catalog_after [prodA; prodD] query_by_price = [prodD; prodA]
  /\ catalog_after [prodA; prodD] query_by_price <> [prodA; prodD]
  /\ products (respond (catalog_after [prodA; prodD] query_by_price)
                Query.empty)
     <> products (respond [prodA; prodD] Query.empty).
Proof.
  split; [reflexivity|].
  change (catalog_after _ _) with [prodD; prodA].
  split; [discriminate|].
  change (products (respond [prodD; prodA] Query.empty)) with [prodD; prodA].
  change (products (respond [prodA; prodD] Query.empty)) with [prodA; prodD].
  discriminate.
Qed.

(** C10: a sort value other than the three recognised keys raises no error
    and reorders nothing: the listing is the page window of the matching
    products in catalog order (and the database's array is untouched). *)
Theorem unrecognised_sort_keeps_catalog_order c q :
  Query.sort q <> Some "price_asc" ->
  Query.sort q <> Some "price_desc" ->
  Query.sort q <> Some "rating" ->
  success (respond c q) = true
  /\ products (respond c q)
     = JS.slice (filter (matches q) c) (startIndex q) (endIndex q)
  /\ total (pagination (respond c q)) = List.length (filter (matches q) c)
  /\ catalog_after c q = c.
Proof.
  intros H1 H2 H3. pose proof (compareFn_none q H1 H2 H3) as Hn.
  rewrite respond_eq, catalog_after_eq. cbn [success products pagination total].
  rewrite !arrange_none, survivors_filter by assumption.
  repeat split. now destruct (filtering q).
Qed.

Lemma unrecognised_sort_witness :
  (Query.sort query_newest <> Some "price_asc"
   /\ Query.sort query_newest <> Some "price_desc"
   /\ Query.sort query_newest <> Some "rating")
  /\ success (respond shop query_newest) = true
  /\ products (respond shop query_newest)
     = JS.slice (filter (matches query_newest) shop)
         (startIndex query_newest) (endIndex query_newest)
  /\ total (pagination (respond shop query_newest))
     = List.length (filter (matches query_newest) shop)
  /\ catalog_after shop query_newest = shop.
Proof.
  split; [repeat split; discriminate|].
  apply (unrecognised_sort_keeps_catalog_order shop query_newest);
    discriminate.
Defined.

(** C4: page and page size are echoed as [parseInt] returns them (1 and 20
    standing in for absent parameters) and the window is cut at
    [(page - 1) * limit] as it is; the echoed values are the clamped ones
    exactly when both are already at least 1. *)
Theorem echoes_parsed_page_and_limit c q :
  page (pagination (respond c q))
    = JS.parseInt (with_default (Query.page q) "1")
  /\ limit (pagination (respond c q))
    = JS.parseInt (with_default (Query.limit q) "20")
  /\ products (respond c q)
    = JS.slice (arrange q (filter (matches q) c)) (startIndex q) (endIndex q)
  /\ (EchoesClamped q (respond c q) <->
      forall p n, pageNumber q = Some p -> pageSize q = Some n ->
        1 <= p /\ 1 <= n).
Proof.
  rewrite respond_eq. cbn [products pagination page limit].
  rewrite survivors_filter.
  split; [reflexivity|]. split; [reflexivity|]. split; [reflexivity|].
  unfold EchoesClamped. cbn [pagination page limit].
  split; intros H p n Hp Hn; specialize (H p n Hp Hn).
  - rewrite Hp, Hn in H. destruct H as [H1 H2].
    injection H1 as H1. injection H2 as H2. lia.
  - rewrite Hp, Hn. split; f_equal; lia.
Qed.

Lemma page_zero_is_not_clamped :
  ~ EchoesClamped (query_page "0" "2") (respond shop (query_page "0" "2"))
  /\ products (respond shop (query_page "0" "2")) = []
  /\ products (respond shop (query_page "1" "2")) = [prodA; prodB].
Proof.
  split; [|split; reflexivity].
  intros H. destruct (H 0 2 eq_refl eq_refl) as [H1 _].
  vm_compute in H1. discriminate.
Qed.

Lemma sorted_page_of f ord key c q :
  compareFn q = Some f -> Consistent f key ->
  (forall a b, before f a b -> ord a b) ->
  SortedPage ord key c q (respond c q).
Proof.
  intros Hf Hc Hord. rewrite respond_eq. cbn [products].
  unfold arrange. rewrite Hf, survivors_filter.
  assert (Hs : StronglySorted ord (JS.sort f (filter (matches q) c))).
  { eapply StronglySorted_weaken; [exact Hord|]. now apply sort_ordered with key. }
  exists (JS.sort f (filter (matches q) c)). repeat split.
  - apply sort_perm.
  - now apply sort_stable.
  - exact Hs.
  - now apply slice_sorted.
Qed.

(** C5: under each of the three explicit sort keys the listing is a window
    of the matching products in ascending price, descending price and
    descending rating order respectively, and products of equal key keep
    their catalog order. *)
Theorem explicit_sorts_are_ordered_and_stable c q :
  SortedPage price_le price c q
    (respond c (Query.with_sort q (Some "price_asc")))
  /\ SortedPage price_ge price c q
       (respond c (Query.with_sort q (Some "price_desc")))
  /\ SortedPage rating_ge rating c q
       (respond c (Query.with_sort q (Some "rating"))).
Proof.
  repeat split.
  - apply (sorted_page_of price_asc price_le price c
             (Query.with_sort q (Some "price_asc")));
      [reflexivity | apply price_asc_consistent | apply before_price_asc].
  - apply (sorted_page_of price_desc price_ge price c
             (Query.with_sort q (Some "price_desc")));
      [reflexivity | apply price_desc_consistent | apply before_price_desc].
  - apply (sorted_page_of rating_desc rating_ge rating c
             (Query.with_sort q (Some "rating")));
      [reflexivity | apply rating_desc_consistent | apply before_rating_desc].
Qed.

(** *** Page counts *)

Lemma ceil_div_nonzero m n :
  n <> 0 -> JS.ceil_div m (JS.Whole n) = Some (- (- Z.of_nat m / n)).
Proof. intros H. destruct n; [lia | reflexivity | reflexivity]. Qed.

Lemma ceil_bounds (m n : Z) :
  1 <= n -> (- (- m / n) - 1) * n < m <= - (- m / n) * n.
Proof.
  intros H.
  pose proof (Z.mul_div_le (- m) n ltac:(lia)).
  pose proof (Z.mul_succ_div_gt (- m) n ltac:(lia)).
  nia.
Qed.

Lemma ceil_bounds_negative (m n : Z) :
  n < 0 -> - (- m / n) * n <= m < (- (- m / n) - 1) * n.
Proof.
  intros H.
  pose proof (Z.div_mod (- m) n ltac:(lia)).
  pose proof (Z.mod_neg_bound (- m) n H).
  nia.
Qed.

Lemma inject_Z_nonzero n : n <> 0 -> ~ (inject_Z n == 0)%Q.
Proof. intros H E. apply H. unfold Qeq in E. simpl in E. lia. Qed.

Lemma quotient_opp m n :
  n <> 0 ->
  (quotient m n == inject_Z (- Z.of_nat m) / inject_Z (- n))%Q.
Proof.
  intros H. unfold quotient. rewrite !inject_Z_opp.
  field. now apply inject_Z_nonzero.
Qed.

Lemma is_ceil_quotient m n :
  n <> 0 -> is_ceil (- (- Z.of_nat m / n)) (quotient m n).
Proof.
  intros H. destruct (Z.lt_total n 0) as [Hneg|[->|Hpos]]; [|lia|].
  - pose proof (ceil_bounds_negative (Z.of_nat m) n Hneg) as [Hlo Hhi].
    set (t := - (- Z.of_nat m / n)) in *.
    assert (Hn : (inject_Z 0 < inject_Z (- n))%Q) by (rewrite <- Zlt_Qlt; lia).
    unfold is_ceil. rewrite quotient_opp by exact H. split.
    + apply Qlt_shift_div_l; [exact Hn|].
      unfold Qminus. change 1%Q with (inject_Z 1).
      rewrite <- inject_Z_opp, <- inject_Z_plus, <- inject_Z_mult.
      rewrite <- Zlt_Qlt. lia.
    + apply Qle_shift_div_r; [exact Hn|].
      rewrite <- inject_Z_mult, <- Zle_Qle. lia.
  - pose proof (ceil_bounds (Z.of_nat m) n ltac:(lia)) as [Hlo Hhi].
    set (t := - (- Z.of_nat m / n)) in *.
    assert (Hn : (inject_Z 0 < inject_Z n)%Q) by (rewrite <- Zlt_Qlt; lia).
    unfold is_ceil, quotient. split.
    + apply Qlt_shift_div_l; [exact Hn|].
      unfold Qminus. change 1%Q with (inject_Z 1).
      rewrite <- inject_Z_opp, <- inject_Z_plus, <- inject_Z_mult.
      rewrite <- Zlt_Qlt. lia.
    + apply Qle_shift_div_r; [exact Hn|].
      rewrite <- inject_Z_mult, <- Zle_Qle. lia.
Qed.

(** What a response says about its pages when the page size is a finite
    number other than 0. *)
Lemma pages_of_response c q n :
  pageSize q = Some n -> n <> 0 ->
  limit (pagination (respond c q)) = Some n
  /\ total (pagination (respond c q)) = List.length (filter (matches q) c)
  /\ pages (pagination (respond c q))
     = Some (- (- Z.of_nat (List.length (filter (matches q) c)) / n)).
Proof.
  intros Hn H0. rewrite respond_eq. cbn [pagination limit total pages].
  rewrite arrange_length, survivors_filter, (pageSize_value _ _ Hn).
  repeat split; [exact Hn | now apply ceil_div_nonzero].
Qed.

(** *** Pages side by side *)

(** The window of page [k + 1]. *)
Lemma page_window c q n s k :
  pageSize q = Some n -> 1 <= n ->
  JS.parseInt s = Some (Z.of_nat (S k)) ->
  products (respond c (Query.with_page q (Some s)))
  = firstn (Z.to_nat n)
      (skipn (k * Z.to_nat n) (arrange q (filter (matches q) c))).
Proof.
  intros Hn Hpos Hs. rewrite respond_eq. cbn [products].
  rewrite survivors_filter.
  change (matches (Query.with_page q (Some s))) with (matches q).
  change (arrange (Query.with_page q (Some s))) with (arrange q).
  unfold endIndex, startIndex.
  change (limitValue (Query.with_page q (Some s))) with (limitValue q).
  change (pageValue (Query.with_page q (Some s))) with (JS.parseInteger s).
  rewrite (pageSize_value _ _ Hn), (finite_whole _ _ Hs).
  cbn [JS.sub JS.opp JS.mul JS.add].
  rewrite slice_window by lia.
  do 2 f_equal. lia.
Qed.

Lemma page_windows c q n ps start :
  pageSize q = Some n -> 1 <= n ->
  map JS.parseInt ps
    = map (fun k => Some (Z.of_nat k)) (seq (S start) (List.length ps)) ->
  map (fun s => products (respond c (Query.with_page q (Some s)))) ps
  = map (fun k => firstn (Z.to_nat n)
                    (skipn (k * Z.to_nat n) (arrange q (filter (matches q) c))))
      (seq start (List.length ps)).
Proof.
  intros Hn Hpos. revert start.
  induction ps as [|s ps IH]; intros start H; [reflexivity|].
  simpl in H. injection H as Hs Hps.
  simpl. f_equal; [now apply page_window | now apply IH].
Qed.

(** Pages 1 to [m] of a page size of at least 1, one after the other, are
    the whole filtered and sorted sequence as soon as [m] pages can hold
    it. *)
Lemma pages_cover c q n ps :
  pageSize q = Some n -> 1 <= n ->
  map JS.parseInt ps
    = map (fun k => Some (Z.of_nat k)) (seq 1 (List.length ps)) ->
  Z.of_nat (List.length (filter (matches q) c))
    <= Z.of_nat (List.length ps) * n ->
  List.concat
    (map (fun s => products (respond c (Query.with_page q (Some s)))) ps)
  = arrange q (filter (matches q) c).
Proof.
  intros Hn Hpos Hps Hm.
  rewrite (page_windows c q n ps 0%nat Hn Hpos Hps), windows_concat.
  apply firstn_all2. rewrite arrange_length. nia.
Qed.

(** C6: for a page size that parses to a finite integer of at least 1,
    the listings of pages 1, 2, ..., m, one after the other, are the whole
    filtered and sorted sequence as soon as [m] is not below the page
    count of the response: every matching product exactly once. *)
Theorem pages_tile_the_listing c q n :
  pageSize q = Some n -> 1 <= n -> PagesTile c q.
Proof.
  intros Hn Hpos ps Hps Ht.
  destruct (pages_of_response c q n Hn ltac:(lia)) as (_ & _ & Hpages).
  specialize (Ht _ Hpages).
  pose proof (ceil_bounds
                (Z.of_nat (List.length (filter (matches q) c))) n Hpos)
    as [_ Hhi].
  assert (E : List.concat
                (map (fun s =>
                        products (respond c (Query.with_page q (Some s)))) ps)
              = arrange q (filter (matches q) c))
    by (apply (pages_cover c q n ps Hn Hpos Hps); nia).
  split; [exact E|]. rewrite E. apply arrange_perm.
Qed.

Lemma pages_tile_witness :
  (pageSize (query_page "1" "2") = Some 2 /\ 1 <= 2)
  /\ List.concat
       (map (fun s => products
                        (respond shop
                           (Query.with_page (query_page "1" "2") (Some s))))
          ["1"; "2"; "3"])
     = [prodA; prodB; prodC; prodD; prodE].
Proof.
  split; [split; [reflexivity | lia]|].
  apply (pages_tile_the_listing shop (query_page "1" "2") 2
           eq_refl ltac:(lia) ["1"; "2"; "3"] eq_refl).
  intros t H. vm_compute in H. injection H as <-. vm_compute. discriminate.
Defined.

Example negative_limit_pages :
  map (fun s => products
                  (respond [prodA; prodB]
                     (Query.with_page (query_page "1" "-1") (Some s))))
    ["1"; "2"; "3"]
  = [[prodA]; []; []]
  /\ pagination (respond [prodA; prodB] (query_page "1" "-1"))
     = {| page := Some 1; limit := Some (-1); total := 2;
          pages := Some (-2) |}.
Proof. vm_compute. split; reflexivity. Qed.

(** A page size of -1 over two products: page 1 holds the first product,
    every later page is empty, and the second product is on no page.  A
    page size of 0 leaves every page empty. *)
Lemma nonpositive_limit_loses_products :
  ~ PagesTile [prodA; prodB] (query_page "1" "-1")
  /\ ~ PagesTile [prodA; prodB] (query_page "1" "0").
Proof.
  split; intros H.
  - destruct (H ["1"; "2"; "3"] eq_refl) as [E _].
    + intros t Ht. vm_compute in Ht. injection Ht as <-. vm_compute. discriminate.
    + vm_compute in E. discriminate E.
  - destruct (H ["1"; "2"] eq_refl) as [E _].
    + intros t Ht. vm_compute in Ht. discriminate Ht.
    + vm_compute in E. discriminate E.
Qed.

(** *** Requests in sequence *)

Lemma compareFn_consistent q f :
  compareFn q = Some f -> exists key, Consistent f key.
Proof.
  unfold compareFn.
  destruct (strict_eq (Query.sort q) "price_asc");
    [intros [= <-]; exists price; apply price_asc_consistent|].
  destruct (strict_eq (Query.sort q) "price_desc");
    [intros [= <-]; exists price; apply price_desc_consistent|].
  destruct (strict_eq (Query.sort q) "rating");
    [intros [= <-]; exists rating; apply rating_desc_consistent|].
  discriminate.
Qed.

Lemma arrange_idempotent q l : arrange q (arrange q l) = arrange q l.
Proof.
  unfold arrange. destruct (compareFn q) as [f|] eqn:E; [|reflexivity].
  destruct (compareFn_consistent q f E) as [key Hc].
  apply sort_idempotent; [apply (cons_total _ _ Hc) | apply (cons_trans _ _ Hc)].
Qed.

(** What a request leaves in the database answers the other pages of the
    same listing as the original catalog does. *)
Lemma respond_after_request c q s s' :
  respond (catalog_after c (Query.with_page q s)) (Query.with_page q s')
  = respond c (Query.with_page q s').
Proof.
  rewrite catalog_after_eq.
  change (filtering (Query.with_page q s)) with (filtering q).
  change (arrange (Query.with_page q s)) with (arrange q).
  destruct (filtering q) eqn:E; [reflexivity|].
  rewrite !respond_eq.
  change (arrange (Query.with_page q s')) with (arrange q).
  rewrite !(survivors_idle (Query.with_page q s')) by exact E.
  now rewrite !arrange_idempotent.
Qed.

Lemma catalog_after_twice c q s s' :
  catalog_after (catalog_after c (Query.with_page q s)) (Query.with_page q s')
  = catalog_after c (Query.with_page q s).
Proof.
  rewrite !catalog_after_eq.
  change (filtering (Query.with_page q s)) with (filtering q).
  change (filtering (Query.with_page q s')) with (filtering q).
  change (arrange (Query.with_page q s)) with (arrange q).
  change (arrange (Query.with_page q s')) with (arrange q).
  destruct (filtering q); [reflexivity | apply arrange_idempotent].
Qed.

Lemma serve_unfold c q qs :
  serve c (q :: qs) =
  (respond c q :: fst (serve (catalog_after c q) qs),
   snd (serve (catalog_after c q) qs)).
Proof.
  unfold respond, catalog_after. simpl.
  destruct (run c q) as [r c']. simpl.
  now destruct (serve c' qs).
Qed.

(** The pages of one listing, asked for one after the other, are answered
    as if each request met the original catalog, although the first sorted
    request may have reordered the database. *)
Lemma serve_pages c q ps :
  fst (serve c (map (Query.with_page q) ps))
  = map (fun s => respond c (Query.with_page q s)) ps.
Proof.
  destruct ps as [|s ps]; [reflexivity|].
  simpl map. rewrite serve_unfold. cbn [fst]. f_equal.
  assert (H : forall c', 
             (forall s', respond c' (Query.with_page q s')
                         = respond c (Query.with_page q s')) ->
             (forall s', catalog_after c' (Query.with_page q s') = c') ->
             fst (serve c' (map (Query.with_page q) ps))
             = map (fun s => respond c (Query.with_page q s)) ps).
  { induction ps as [|s1 ps IH]; intros c' Hr Hc; [reflexivity|].
    simpl map. rewrite serve_unfold. cbn [fst].
    rewrite Hr, Hc. f_equal. now apply IH. }
  apply H.
  - intros s'. apply respond_after_request.
  - intros s'. apply catalog_after_twice.
Qed.

Lemma filter_none (f : Product -> bool) l :
  (forall p, f p = false) -> filter f l = [].
Proof.
  intros H. induction l as [|x l IH]; [reflexivity|].
  simpl. now rewrite H.
Qed.

Lemma keep_if_nil x f : keep_if x f [] = [].
Proof. unfold keep_if. destruct x as [s|]; [destruct (JS.truthy s)|]; reflexivity. Qed.

Lemma arrange_nil q : arrange q [] = [].
Proof. unfold arrange. now destruct (compareFn q). Qed.

(** C7: for a page size that parses to a finite integer other than 0 the
    page count is [ceil(total / pageSize)]; for a page size of at least 1
    it is moreover not negative, and zero exactly when no product
    matches. *)
Theorem total_pages_for_finite_limit c q n :
  pageSize q = Some n -> n <> 0 ->
  (exists t,
     pages (pagination (respond c q)) = Some t
     /\ is_ceil t (quotient (total (pagination (respond c q))) n))
  /\ (1 <= n -> TotalPagesOk (respond c q)).
Proof.
  intros Hn H0.
  destruct (pages_of_response c q n Hn H0) as (Hlimit & Htotal & Hpages).
  set (m := List.length (filter (matches q) c)) in *.
  assert (Hc : is_ceil (- (- Z.of_nat m / n))
                 (quotient (total (pagination (respond c q))) n))
    by (rewrite Htotal; now apply is_ceil_quotient).
  split; [now exists (- (- Z.of_nat m / n))|].
  intros Hpos. exists n, (- (- Z.of_nat m / n)).
  pose proof (ceil_bounds (Z.of_nat m) n Hpos) as [Hlo Hhi].
  split; [exact Hlimit|]. split; [exact Hpages|]. split; [exact Hc|].
  rewrite Htotal. split; [nia|]. split; intros H; nia.
Qed.

Lemma total_pages_witness :
  (pageSize (query_page "1" "2") = Some 2 /\ 2 <> 0)
  /\ (exists t,
        pages (pagination (respond shop (query_page "1" "2"))) = Some t
        /\ is_ceil t
             (quotient (total (pagination (respond shop (query_page "1" "2"))))
                2))
  /\ (1 <= 2 -> TotalPagesOk (respond shop (query_page "1" "2"))).
Proof.
  split; [split; [reflexivity | lia]|].
  apply (total_pages_for_finite_limit shop (query_page "1" "2") 2);
    [reflexivity | lia].
Defined.

Lemma negative_limit_gives_negative_pages :
  ~ TotalPagesOk (respond [prodA; prodB] (query_page "1" "-1")).
Proof.
  intros (n & t & _ & Ht & _ & H0 & _).
  vm_compute in Ht. injection Ht as <-. lia.
Qed.

(** A page size beyond the largest binary64 number is read as
    [Infinity]: it comes back as [null], the page count is 0 and every
    listing is empty.  A page size of 0 has no page count. *)
Example overflowing_limit :
  respond shop (query_page "1" huge)
  = {| success := true; products := [];
       pagination := {| page := Some 1; limit := None; total := 5;
                        pages := Some 0 |} |}.
Proof. vm_compute. reflexivity. Qed.

Example zero_limit :
  respond shop (query_page "1" "0")
  = {| success := true; products := [];
       pagination := {| page := Some 1; limit := Some 0; total := 5;
                        pages := None |} |}.
Proof. vm_compute. reflexivity. Qed.

(** C8: the total always counts the matching products, and a query that
    matches nothing gives an empty listing, whatever the page size.  A
    page size that is not a finite number gives an empty listing.  For a
    finite page size other than 0 the page count is
    [ceil(total / pageSize)]; for one that is not negative no listing is
    longer than the page size and a page beyond the last one is empty. *)
Theorem empty_pages_for_any_limit c q :
  total (pagination (respond c q)) = List.length (filter (matches q) c)
  /\ (total (pagination (respond c q)) = 0%nat -> products (respond c q) = [])
  /\ (pageSize q = None -> products (respond c q) = [])
  /\ (forall n, pageSize q = Some n ->
        limit (pagination (respond c q)) = Some n
        /\ (n <> 0 ->
            exists t,
              pages (pagination (respond c q)) = Some t
              /\ is_ceil t (quotient (total (pagination (respond c q))) n))
        /\ (0 <= n ->
            Z.of_nat (List.length (products (respond c q))) <= n
            /\ forall p t,
                 page (pagination (respond c q)) = Some p ->
                 pages (pagination (respond c q)) = Some t ->
                 t < p -> products (respond c q) = [])
        /\ (1 <= n -> EmptyPagesOk c q (respond c q))).
Proof.
  assert (Htotal : total (pagination (respond c q))
                   = List.length (filter (matches q) c))
    by (rewrite respond_eq; cbn [pagination total];
        now rewrite arrange_length, survivors_filter).
  assert (Hnone : total (pagination (respond c q)) = 0%nat ->
                  products (respond c q) = []).
  { rewrite Htotal. intros H. apply length_zero_iff_nil in H.
    rewrite respond_eq. cbn [products].
    rewrite survivors_filter, H, arrange_nil. apply slice_nil. }
  split; [exact Htotal|]. split; [exact Hnone|]. split.
  { intros H. rewrite respond_eq. cbn [products].
    unfold endIndex, startIndex. apply slice_not_finite. now right. }
  intros n Hn.
  set (m := List.length (filter (matches q) c)) in *.
  assert (Hlen : 0 <= n ->
                 Z.of_nat (List.length (products (respond c q))) <= n).
  { intros Hpos. rewrite respond_eq. cbn [products].
    unfold endIndex. rewrite (pageSize_value _ _ Hn).
    now apply slice_length. }
  assert (Hbeyond : 0 <= n -> forall p t,
             page (pagination (respond c q)) = Some p ->
             pages (pagination (respond c q)) = Some t ->
             t < p -> products (respond c q) = []).
  { intros Hpos p t Hp Ht Hlt.
    destruct (Z.eq_dec n 0) as [->|H0].
    - rewrite respond_eq in Ht. cbn [pagination pages] in Ht.
      rewrite (pageSize_value _ _ Hn) in Ht. discriminate Ht.
    - destruct (pages_of_response c q n Hn H0) as (_ & _ & Hpages).
      rewrite Hpages in Ht. injection Ht as <-. fold m in Hlt.
      pose proof (ceil_bounds (Z.of_nat m) n ltac:(lia)) as [_ Hhi].
      rewrite respond_eq in Hp |- *. cbn [pagination page products] in Hp |- *.
      destruct (finite_window q p n Hp Hn) as [-> ->].
      apply slice_beyond.
      rewrite arrange_length, survivors_filter. fold m. nia. }
  split; [rewrite respond_eq; exact Hn|]. split.
  { intros H0.
    destruct (pages_of_response c q n Hn H0) as (_ & _ & Hpages).
    exists (- (- Z.of_nat m / n)). split; [exact Hpages|].
    rewrite Htotal. now apply is_ceil_quotient. }
  split; [intros Hpos; split; [now apply Hlen | now apply Hbeyond]|].
  intros Hpos. unfold EmptyPagesOk.
  split; [exact Htotal|]. split; [|exact Hnone].
  destruct (pages_of_response c q n Hn ltac:(lia)) as (Hlimit & _ & Hpages).
  exists n, (- (- Z.of_nat m / n)).
  split; [exact Hlimit|]. split; [exact Hpages|].
  split; [rewrite Htotal; apply is_ceil_quotient; lia|].
  split; [apply Hlen; lia|].
  intros p Hp Hlt. apply (Hbeyond ltac:(lia) p _ Hp Hpages Hlt).
Qed.

Lemma empty_pages_witness :
  pageSize (query_page "99" "2") = Some 2
  /\ products (respond shop (query_page "99" "2")) = []
  /\ pagination (respond shop (query_page "99" "2"))
     = {| page := Some 99; limit := Some 2; total := 5; pages := Some 3 |}
  /\ EmptyPagesOk shop (query_page "99" "2")
       (respond shop (query_page "99" "2")).
Proof.
  split; [reflexivity|]. split; [reflexivity|]. split; [reflexivity|].
  destruct (empty_pages_for_any_limit shop (query_page "99" "2"))
    as (_ & _ & _ & H).
  destruct (H 2 eq_refl) as (_ & _ & _ & Hok).
  apply Hok. lia.
Defined.

Lemma negative_limit_overfills_the_page :
  ~ EmptyPagesOk [prodA; prodB] (query_page "1" "-1")
      (respond [prodA; prodB] (query_page "1" "-1")).
Proof.
  intros (_ & (n & t & Hn & _ & _ & Hlen & _) & _).
  vm_compute in Hn. injection Hn as <-.
  vm_compute in Hlen. now apply Hlen.
Qed.

(** *** Price bounds that do not parse *)

Lemma respond_nothing c q :
  survivors q c = [] ->
  products (respond c q) = [] /\ total (pagination (respond c q)) = 0%nat.
Proof.
  intros H. rewrite respond_eq. cbn [products pagination total].
  rewrite H, arrange_nil. split; [apply slice_nil | reflexivity].
Qed.

(** C9: a price bound that is not empty and that [parseFloat] cannot read
    excludes every product, so the listing is empty and the total is 0;
    only the empty string is treated as no bound at all. *)
Theorem unparsable_bound_excludes_everything c q s :
  JS.parseFloat s = JS.NaN ->
  (s <> "" ->
   (products (respond c (Query.with_minPrice q (Some s))) = []
    /\ total (pagination (respond c (Query.with_minPrice q (Some s)))) = 0%nat)
   /\ (products (respond c (Query.with_maxPrice q (Some s))) = []
       /\ total (pagination (respond c (Query.with_maxPrice q (Some s))))
          = 0%nat))
  /\ (s = "" ->
      respond c (Query.with_minPrice q (Some s))
        = respond c (Query.with_minPrice q None)
      /\ respond c (Query.with_maxPrice q (Some s))
        = respond c (Query.with_maxPrice q None)).
Proof.
  intros Hnan. split.
  - intros Hs. apply truthy_true in Hs.
    split; apply respond_nothing; unfold survivors, Query.with_minPrice,
      Query.with_maxPrice; cbn [Query.category Query.search Query.minPrice
                                 Query.maxPrice].
    + unfold keep_if at 2. rewrite Hs.
      rewrite (filter_none (by_minPrice s));
        [apply keep_if_nil | intros p; unfold by_minPrice; now rewrite Hnan].
    + unfold keep_if at 1. rewrite Hs.
      apply filter_none. intros p. unfold by_maxPrice. now rewrite Hnan.
  - intros ->. split; reflexivity.
Qed.

Lemma unparsable_bound_witness :
  JS.parseFloat "abc" = JS.NaN
  /\ ("abc" <> "" ->
      (products (respond shop (Query.with_minPrice Query.empty (Some "abc")))
         = []
       /\ total (pagination
                   (respond shop (Query.with_minPrice Query.empty (Some "abc"))))
          = 0%nat)
      /\ (products (respond shop (Query.with_maxPrice Query.empty (Some "abc")))
            = []
          /\ total (pagination
                      (respond shop
                         (Query.with_maxPrice Query.empty (Some "abc"))))
             = 0%nat))
  /\ ("abc" = "" ->
      respond shop (Query.with_minPrice Query.empty (Some "abc"))
        = respond shop (Query.with_minPrice Query.empty None)
      /\ respond shop (Query.with_maxPrice Query.empty (Some "abc"))
        = respond shop (Query.with_maxPrice Query.empty None)).
Proof.
  split; [reflexivity|].
  apply (unparsable_bound_excludes_everything shop Query.empty "abc").
  reflexivity.
Defined.

Lemma unparsable_bound_is_not_ignored :
  ~ UnparsableIgnored [prodA] Query.empty "abc".
Proof.
  intros H. destruct (H eq_refl) as [H1 _].
  vm_compute in H1. discriminate.
Qed.

(** ** Further properties of the listing *)

Lemma with_page_same q : Query.with_page q (Query.page q) = q.
Proof. now destruct q. Qed.

(** X1: asking twice gives the same answer: what the first request leaves in
    the database answers the same request as the original catalog did, and
    the second request changes the database no further. *)
Theorem repeated_request_same_response c q :
  respond (catalog_after c q) q = respond c q
  /\ catalog_after (catalog_after c q) q = catalog_after c q.
Proof.
  pose proof (respond_after_request c q (Query.page q) (Query.page q)) as H1.
  pose proof (catalog_after_twice c q (Query.page q) (Query.page q)) as H2.
  rewrite !with_page_same in H1, H2. now split.
Qed.

(** X2: a request may reorder the database's product array but never adds,
    drops or duplicates a product. *)
Theorem request_keeps_the_products c q : Permutation c (catalog_after c q).
Proof.
  rewrite catalog_after_eq. destruct (filtering q); [reflexivity|].
  apply arrange_perm.
Qed.

(** X3: pages 1, 2, ..., m of one listing, requested one after the other from
    the same database, still tile the filtered and sorted sequence, although
    the first request may have sorted the database's array. *)
Theorem served_pages_tile_the_listing c q n ps :
  pageSize q = Some n -> 1 <= n ->
  map JS.parseInt ps
    = map (fun k => Some (Z.of_nat k)) (seq 1 (List.length ps)) ->
  Z.of_nat (List.length (filter (matches q) c))
    <= Z.of_nat (List.length ps) * n ->
  List.concat (map products (fst (serve c (page_requests q ps))))
  = arrange q (filter (matches q) c).
Proof.
  intros Hn Hpos Hps Hm. unfold page_requests.
  rewrite <- (map_map Some (Query.with_page q)), serve_pages.
  rewrite !map_map.
  rewrite (page_windows c q n ps 0%nat Hn Hpos Hps), windows_concat.
  apply firstn_all2. rewrite arrange_length. nia.
Qed.

Lemma served_pages_witness :
  (pageSize query_by_price = Some 20
   /\ 1 <= 20
   /\ map JS.parseInt ["1"; "2"]
      = map (fun k => Some (Z.of_nat k)) (seq 1 2)
   /\ Z.of_nat (List.length (filter (matches query_by_price) shop))
      <= Z.of_nat 2 * 20)
  /\ List.concat
       (map products (fst (serve shop (page_requests query_by_price ["1"; "2"]))))
     = arrange query_by_price (filter (matches query_by_price) shop).
Proof.
  split.
  - repeat split; try reflexivity; vm_compute; discriminate.
  - apply (served_pages_tile_the_listing shop query_by_price 20 ["1"; "2"]).
    + reflexivity.
    + lia.
    + reflexivity.
    + vm_compute; discriminate.
Defined.

(** X4: bounds that cross, a minimum above the maximum, are not rejected: the
    listing is empty and the total is 0. *)
Theorem crossed_bounds_give_empty_listing c q lo hi a b :
  Query.minPrice q = Some lo -> lo <> "" -> JS.parseFloat lo = JS.Finite a ->
  Query.maxPrice q = Some hi -> hi <> "" -> JS.parseFloat hi = JS.Finite b ->
  (b < a)%Q ->
  products (respond c q) = []
  /\ total (pagination (respond c q)) = 0%nat
  /\ success (respond c q) = true.
Proof.
  intros Hlo Hlo' Ea Hhi Hhi' Eb Hlt.
  assert (E : survivors q c = []).
  { rewrite survivors_filter. apply filter_none. intros p.
    unfold matches. rewrite Hlo, Hhi. unfold check.
    rewrite (proj2 (truthy_true lo) Hlo'), (proj2 (truthy_true hi) Hhi').
    unfold by_minPrice, by_maxPrice. rewrite Ea, Eb. simpl.
    destruct (Qle_bool a (price p)) eqn:E1; [|now rewrite andb_false_r].
    destruct (Qle_bool (price p) b) eqn:E2; [|now rewrite andb_false_r].
    apply Qle_bool_iff in E1, E2. lra. }
  destruct (respond_nothing c q E) as [H1 H2].
  repeat split; try assumption. now rewrite respond_eq.
Qed.

Lemma crossed_bounds_witness :
  (Query.minPrice (Query.mk None None (Some "35") (Some "15") None None None)
   = Some "35"
   /\ "35" <> "" /\ JS.parseFloat "35" = JS.Finite (35 # 1)
   /\ Query.maxPrice (Query.mk None None (Some "35") (Some "15") None None None)
      = Some "15"
   /\ "15" <> "" /\ JS.parseFloat "15" = JS.Finite (15 # 1)
   /\ (15 # 1 < 35 # 1)%Q)
  /\ products
       (respond shop (Query.mk None None (Some "35") (Some "15") None None None))
     = []
  /\ total (pagination
              (respond shop
                 (Query.mk None None (Some "35") (Some "15") None None None)))
     = 0%nat
  /\ success
       (respond shop (Query.mk None None (Some "35") (Some "15") None None None))
     = true.
Proof.
  split.
  - repeat split; try reflexivity; discriminate.
  - apply (crossed_bounds_give_empty_listing shop
             (Query.mk None None (Some "35") (Some "15") None None None)
             "35" "15" (35 # 1) (15 # 1));
      try reflexivity; discriminate.
Defined.

Lemma toLowerCase_truthy s : JS.truthy (JS.toLowerCase s) = JS.truthy s.
Proof. now destruct s. Qed.

(** X5: the search does not look at the case of the search term: two terms
    that differ in case only give the same response. *)
Theorem search_ignores_case c q s s' :
  JS.toLowerCase s = JS.toLowerCase s' ->
  respond c (with_search q (Some s)) = respond c (with_search q (Some s')).
Proof.
  intros H.
  assert (Ht : JS.truthy s = JS.truthy s')
    by (rewrite <- (toLowerCase_truthy s), H; apply toLowerCase_truthy).
  rewrite !respond_eq. unfold survivors, with_search.
  cbn [Query.category Query.search Query.minPrice Query.maxPrice].
  unfold keep_if at 3 7 11 15. rewrite Ht.
  assert (Hf : by_search s = by_search s').
  { unfold by_search. now rewrite H. }
  rewrite Hf. reflexivity.
Qed.

Lemma search_ignores_case_witness :
  JS.toLowerCase "PHONE" = JS.toLowerCase "phone"
  /\ respond shop (with_search Query.empty (Some "PHONE"))
     = respond shop (with_search Query.empty (Some "phone")).
Proof.
  split; [reflexivity|].
  apply (search_ignores_case shop Query.empty "PHONE" "phone"). reflexivity.
Defined.

(** Two bounds that are written differently and denote the same binary64
    number do not cross: the product at that price is listed. *)
Example equal_bounds_do_not_cross :
  products
    (respond [dime; prodA]
       (Query.mk None None (Some "0.10000000000000001") (Some "0.1")
          None None None))
  = [dime].
Proof. vm_compute. reflexivity. Qed.

(** X6: how many products a page holds: the page size, cut down to what is
    left of the listing from the page's first index on. *)
Theorem page_length c q p n :
  pageNumber q = Some p -> pageSize q = Some n -> 1 <= p -> 1 <= n ->
  Z.of_nat (List.length (products (respond c q)))
  = Z.max 0 (Z.min n (Z.of_nat (total (pagination (respond c q)))
                      - (p - 1) * n)).
Proof.
  intros Hp Hn Hp1 Hn1. rewrite respond_eq. cbn [products pagination total].
  destruct (finite_window q p n Hp Hn) as [-> ->].
  rewrite slice_window by nia.
  rewrite length_firstn, length_skipn. nia.
Qed.

Lemma page_length_witness :
  (pageNumber (query_page "3" "2") = Some 3
   /\ pageSize (query_page "3" "2") = Some 2 /\ 1 <= 3 /\ 1 <= 2)
  /\ Z.of_nat (List.length (products (respond shop (query_page "3" "2"))))
     = Z.max 0 (Z.min 2 (Z.of_nat (total (pagination
                                            (respond shop (query_page "3" "2"))))
                         - (3 - 1) * 2)).
Proof.
  split; [repeat split; try reflexivity; lia|].
  apply (page_length shop (query_page "3" "2") 3 2);
    try reflexivity; lia.
Defined.



(** ** The cart *)

Lemma count_from (l : list CartItem.t) (a : Z) :
  fold_left (fun count item => count + CartItem.quantity item) l a
  = a + Cart.getCartCount l.
Proof.
  unfold Cart.getCartCount. revert a.
  induction l as [|x l IH]; intros a; cbn [fold_left]; [lia|].
  rewrite IH, (IH (0 + CartItem.quantity x)). lia.
Qed.

Lemma count_cons x l :
  Cart.getCartCount (x :: l) = CartItem.quantity x + Cart.getCartCount l.
Proof. unfold Cart.getCartCount at 1. simpl. now rewrite count_from. Qed.

Lemma count_app l l' :
  Cart.getCartCount (l ++ l') = Cart.getCartCount l + Cart.getCartCount l'.
Proof.
  induction l as [|x l IH]; [reflexivity|].
  simpl. rewrite !count_cons, IH. lia.
Qed.

Lemma total_from (l : list CartItem.t) (a : Q) :
  (fold_left
     (fun total item =>
        total + Cart.price_of item * inject_Z (CartItem.quantity item))
     l a
   == a + Cart.getCartTotal l)%Q.
Proof.
  unfold Cart.getCartTotal. revert a.
  induction l as [|x l IH]; intros a; cbn [fold_left]; [lra|].
  rewrite IH,
    (IH (0 + Cart.price_of x * inject_Z (CartItem.quantity x))%Q).
  lra.
Qed.

Lemma total_app l l' :
  (Cart.getCartTotal (l ++ l')
   == Cart.getCartTotal l + Cart.getCartTotal l')%Q.
Proof.
  unfold Cart.getCartTotal at 1. rewrite fold_left_app.
  rewrite total_from. fold (Cart.getCartTotal l). lra.
Qed.

Lemma has_id_ids i item :
  Cart.has_id (Some i) item = true <-> Cart.product_id item = Some i.
Proof.
  unfold Cart.has_id. destruct (Cart.product_id item) as [j|].
  - rewrite String.eqb_eq. split; congruence.
  - split; discriminate.
Qed.

Lemma find_none_ids i cart :
  find (Cart.has_id (Some i)) cart = None <-> ~ In i (ids cart).
Proof.
  induction cart as [|x l IH]; simpl; [tauto|].
  destruct (Cart.has_id (Some i) x) eqn:E.
  - apply has_id_ids in E. rewrite E. simpl. split; [discriminate | tauto].
  - rewrite IH, in_app_iff. split; [|tauto].
    intros H [Hx|Hl]; [|tauto].
    destruct (Cart.product_id x) as [j|] eqn:Ej; simpl in Hx; [|tauto].
    destruct Hx as [->|[]].
    assert (Cart.has_id (Some i) x = true) by now apply has_id_ids.
    congruence.
Qed.

Lemma not_in_ids_no_match i cart :
  ~ In i (ids cart) ->
  forall item, In item cart -> Cart.has_id (Some i) item = false.
Proof.
  intros H item Hin. destruct (Cart.has_id (Some i) item) eqn:E; [|reflexivity].
  apply has_id_ids in E. exfalso. apply H. unfold ids.
  apply in_flat_map. exists item. split; [exact Hin|]. rewrite E. now left.
Qed.


Lemma map_no_match pid q cart :
  (forall item, In item cart -> Cart.has_id pid item = false) ->
  map (fun item => if Cart.has_id pid item then Cart.set_quantity item q
                   else item) cart = cart.
Proof.
  induction cart as [|x l IH]; intros H; [reflexivity|].
  simpl. rewrite (H x) by now left. f_equal. apply IH.
  intros item Hin. apply H. now right.
Qed.

Lemma filter_no_match pid cart :
  (forall item, In item cart -> Cart.has_id pid item = false) ->
  filter (fun item => negb (Cart.has_id pid item)) cart = cart.
Proof.
  induction cart as [|x l IH]; intros H; [reflexivity|].
  simpl. rewrite (H x) by now left. simpl. f_equal. apply IH.
  intros item Hin. apply H. now right.
Qed.

Lemma ids_cons x l :
  ids (x :: l)
  = match Cart.product_id x with Some i => [i] | None => [] end ++ ids l.
Proof. reflexivity. Qed.

Lemma ids_app l l' : ids (l ++ l') = ids l ++ ids l'.
Proof. unfold ids. apply flat_map_app. Qed.

Lemma ids_set_quantity pid q cart :
  ids (map (fun item => if Cart.has_id pid item then Cart.set_quantity item q
                        else item) cart) = ids cart.
Proof.
  induction cart as [|x l IH]; [reflexivity|].
  simpl map. rewrite !ids_cons, IH. now destruct (Cart.has_id pid x).
Qed.

Lemma ids_filter_incl (f : CartItem.t -> bool) cart i :
  In i (ids (filter f cart)) -> In i (ids cart).
Proof.
  unfold ids. rewrite !in_flat_map. intros (x & Hx & Hi).
  apply filter_In in Hx. exists x. tauto.
Qed.

Lemma unique_ids_filter (f : CartItem.t -> bool) cart :
  UniqueIds cart -> UniqueIds (filter f cart).
Proof.
  unfold UniqueIds. induction cart as [|x l IH]; intros H; [exact H|].
  rewrite ids_cons in H. simpl. destruct (f x).
  - rewrite ids_cons. destruct (Cart.product_id x) as [i|]; simpl in *.
    + apply NoDup_cons_iff in H. destruct H as [Hi Hl].
      constructor; [|now apply IH].
      intros Hin. apply Hi. revert Hin. apply ids_filter_incl.
    + now apply IH.
  - apply IH. destruct (Cart.product_id x); simpl in H; [|exact H].
    now apply NoDup_cons_iff in H.
Qed.

(** *** Each operation keeps the cart well formed *)

Lemma remove_keeps auth pid cart :
  UniqueIds cart -> PositiveQuantities cart ->
  UniqueIds (Cart.update (Cart.removeFromCart auth pid) cart)
  /\ PositiveQuantities (Cart.update (Cart.removeFromCart auth pid) cart).
Proof.
  intros Hu Hp. split; simpl.
  - now apply unique_ids_filter.
  - apply Forall_forall. intros x Hx. apply filter_In in Hx.
    exact (proj1 (Forall_forall _ _) Hp x (proj1 Hx)).
Qed.

Lemma update_keeps auth pid q cart :
  UniqueIds cart -> PositiveQuantities cart ->
  UniqueIds (Cart.update (Cart.updateQuantity auth pid q) cart)
  /\ PositiveQuantities (Cart.update (Cart.updateQuantity auth pid q) cart).
Proof.
  intros Hu Hp. unfold Cart.updateQuantity.
  destruct (Z.leb_spec q 0); [now apply remove_keeps|].
  split; simpl.
  - unfold UniqueIds. now rewrite ids_set_quantity.
  - apply Forall_forall. intros x Hx. apply in_map_iff in Hx.
    destruct Hx as (y & <- & Hy).
    pose proof (proj1 (Forall_forall _ _) Hp y Hy) as H0.
    cbv beta in H0.
    destruct (Cart.has_id pid y); unfold Cart.set_quantity; cbn; lia.
Qed.

Lemma add_keeps auth p q cart :
  1 <= q -> UniqueIds cart -> PositiveQuantities cart ->
  UniqueIds (Cart.step cart (fun c => Cart.addToCart auth c p q))
  /\ PositiveQuantities (Cart.step cart (fun c => Cart.addToCart auth c p q)).
Proof.
  intros Hq Hu Hp. unfold Cart.step, Cart.addToCart.
  destruct (find _ cart) as [e|] eqn:E; [now apply update_keeps|].
  simpl. split.
  - unfold UniqueIds. rewrite ids_app. simpl.
    apply find_none_ids in E.
    apply NoDup_app; [exact Hu | repeat constructor; simpl; tauto |].
    intros x Hx [<-|[]]. contradiction.
  - apply Forall_app. split; [exact Hp|]. now repeat constructor.
Qed.

Lemma change_keeps auth pid q cart :
  UniqueIds cart -> PositiveQuantities cart ->
  UniqueIds (Cart.update (CartPage.handleQuantityChange auth pid q) cart)
  /\ PositiveQuantities
       (Cart.update (CartPage.handleQuantityChange auth pid q) cart).
Proof.
  intros Hu Hp. unfold CartPage.handleQuantityChange.
  destruct (q <? 1); [now split | now apply update_keeps].
Qed.

Lemma quantity_input_positive v : 1 <= quantity_input v.
Proof. unfold quantity_input. lia. Qed.

Lemma perform_keeps auth a cart :
  UniqueIds cart -> PositiveQuantities cart ->
  UniqueIds (Cart.step cart (perform auth a))
  /\ PositiveQuantities (Cart.step cart (perform auth a)).
Proof.
  intros Hu Hp. destruct a as [p|p v|item|item|item|].
  - apply (add_keeps auth p 1 cart); [lia | exact Hu | exact Hp].
  - apply (add_keeps auth p (quantity_input v) cart);
      [apply quantity_input_positive | exact Hu | exact Hp].
  - now apply change_keeps.
  - now apply change_keeps.
  - now apply remove_keeps.
  - split; constructor.
Qed.

(** X8: whatever the user does through the product cards, the product page and
    the cart page, a cart in which no product has two entries and no entry
    has a quantity below 1 stays such a cart; the empty cart the provider
    starts with is one. *)
Theorem session_keeps_cart_well_formed auth actions cart :
  UniqueIds cart -> PositiveQuantities cart ->
  UniqueIds (session auth actions cart)
  /\ PositiveQuantities (session auth actions cart).
Proof.
  unfold session. revert cart.
  induction actions as [|a actions IH]; intros cart Hu Hp; [now split|].
  simpl. destruct (perform_keeps auth a cart Hu Hp) as [Hu' Hp'].
  now apply IH.
Qed.

Lemma session_witness :
  (UniqueIds [] /\ PositiveQuantities [])
  /\ UniqueIds
       (session false [CardAdd prodA; DetailAdd prodA "0"; CardAdd prodB] [])
  /\ PositiveQuantities
       (session false [CardAdd prodA; DetailAdd prodA "0"; CardAdd prodB] []).
Proof.
  split; [split; constructor|].
  apply (session_keeps_cart_well_formed false
           [CardAdd prodA; DetailAdd prodA "0"; CardAdd prodB] []);
    constructor.
Defined.

(** *** What the operations do to the cart *)

Lemma count_after_update i q cart e :
  UniqueIds cart ->
  find (Cart.has_id (Some i)) cart = Some e ->
  Cart.getCartCount
    (map (fun item => if Cart.has_id (Some i) item
                      then Cart.set_quantity item q else item) cart)
  = Cart.getCartCount cart - CartItem.quantity e + q.
Proof.
  unfold UniqueIds. induction cart as [|x l IH]; intros Hu He; [discriminate|].
  simpl in He. simpl map. rewrite ids_cons in Hu.
  destruct (Cart.has_id (Some i) x) eqn:E.
  - injection He as <-. apply has_id_ids in E. rewrite E in Hu.
    apply NoDup_cons_iff in Hu. destruct Hu as [Hi _].
    rewrite map_no_match by now apply not_in_ids_no_match.
    rewrite !count_cons. cbn. lia.
  - apply NoDup_app_remove_l in Hu.
    rewrite !count_cons, (IH Hu He). lia.
Qed.

(** X9: adding [quantity] of a product raises the item count by [quantity],
    whether the product gets a new entry or its entry a higher quantity,
    as long as no product has two entries and the new quantity of an
    existing entry is at least 1. *)
Theorem add_to_cart_count auth cart p q :
  UniqueIds cart ->
  (forall e, find (Cart.has_id (Some (id p))) cart = Some e ->
             1 <= CartItem.quantity e + q) ->
  Cart.getCartCount (Cart.step cart (fun c => Cart.addToCart auth c p q))
  = Cart.getCartCount cart + q.
Proof.
  intros Hu Hq. unfold Cart.step, Cart.addToCart.
  destruct (find _ cart) as [e|] eqn:E.
  - specialize (Hq e eq_refl). unfold Cart.updateQuantity.
    destruct (Z.leb_spec (CartItem.quantity e + q) 0); [lia|].
    cbn [Cart.update]. rewrite (count_after_update _ _ _ e Hu E). lia.
  - cbn [Cart.update]. rewrite count_app, count_cons. cbn. lia.
Qed.

Lemma add_to_cart_count_witness :
  (UniqueIds [CartItem.mk (Some prodA) 2 (Some (price prodA))]
   /\ forall e,
        find (Cart.has_id (Some (id prodA)))
          [CartItem.mk (Some prodA) 2 (Some (price prodA))] = Some e ->
        1 <= CartItem.quantity e + 3)
  /\ Cart.getCartCount
       (Cart.step [CartItem.mk (Some prodA) 2 (Some (price prodA))]
          (fun c => Cart.addToCart true c prodA 3))
     = Cart.getCartCount [CartItem.mk (Some prodA) 2 (Some (price prodA))] + 3.
Proof.
  assert (Hu : UniqueIds [CartItem.mk (Some prodA) 2 (Some (price prodA))])
    by (repeat constructor; simpl; tauto).
  assert (Hq : forall e,
             find (Cart.has_id (Some (id prodA)))
               [CartItem.mk (Some prodA) 2 (Some (price prodA))] = Some e ->
             1 <= CartItem.quantity e + 3)
    by (intros e [= <-]; simpl; lia).
  split; [split; assumption|].
  apply (add_to_cart_count true
           [CartItem.mk (Some prodA) 2 (Some (price prodA))] prodA 3 Hu Hq).
Defined.

(** X10: adding a product the cart does not hold and removing it again gives
    back the cart. *)
Theorem add_then_remove_restores auth cart p q :
  find (Cart.has_id (Some (id p))) cart = None ->
  Cart.step (Cart.step cart (fun c => Cart.addToCart auth c p q))
    (fun _ => Cart.removeFromCart auth (Some (id p)))
  = cart.
Proof.
  intros E. unfold Cart.step, Cart.addToCart. rewrite E.
  cbn [Cart.update Cart.removeFromCart].
  rewrite filter_app, filter_no_match by exact (find_none _ _ E).
  simpl. unfold Cart.has_id. cbn. rewrite String.eqb_refl. simpl.
  apply app_nil_r.
Qed.

Lemma add_then_remove_witness :
  find (Cart.has_id (Some (id prodB)))
    [CartItem.mk (Some prodA) 2 (Some (price prodA))] = None
  /\ Cart.step
       (Cart.step [CartItem.mk (Some prodA) 2 (Some (price prodA))]
          (fun c => Cart.addToCart false c prodB 1))
       (fun _ => Cart.removeFromCart false (Some (id prodB)))
     = [CartItem.mk (Some prodA) 2 (Some (price prodA))].
Proof.
  split; [reflexivity|].
  apply (add_then_remove_restores false
           [CartItem.mk (Some prodA) 2 (Some (price prodA))] prodB 1).
  reflexivity.
Defined.

(** X11: [updateQuantity] and [removeFromCart] never add an entry: for a product
    id no entry has, whatever the quantity, the cart stays as it is. *)
Theorem update_of_missing_product_changes_nothing auth pid q cart :
  find (Cart.has_id pid) cart = None ->
  Cart.update (Cart.updateQuantity auth pid q) cart = cart
  /\ Cart.update (Cart.removeFromCart auth pid) cart = cart.
Proof.
  intros E. pose proof (find_none _ _ E) as H.
  unfold Cart.updateQuantity.
  destruct (q <=? 0); cbn [Cart.update Cart.removeFromCart];
    (split; [|now apply filter_no_match]).
  - now apply filter_no_match.
  - now apply map_no_match.
Qed.

Lemma update_of_missing_product_witness :
  find (Cart.has_id (Some "B"))
    [CartItem.mk (Some prodA) 2 (Some (price prodA))] = None
  /\ Cart.update (Cart.updateQuantity false (Some "B") 5)
       [CartItem.mk (Some prodA) 2 (Some (price prodA))]
     = [CartItem.mk (Some prodA) 2 (Some (price prodA))]
  /\ Cart.update (Cart.removeFromCart false (Some "B"))
       [CartItem.mk (Some prodA) 2 (Some (price prodA))]
     = [CartItem.mk (Some prodA) 2 (Some (price prodA))].
Proof.
  split; [reflexivity|].
  apply (update_of_missing_product_changes_nothing false (Some "B") 5
           [CartItem.mk (Some prodA) 2 (Some (price prodA))]).
  reflexivity.
Defined.

Lemma price_of_new p q :
  (Cart.price_of (CartItem.mk (Some p) q (Some (price p))) == price p)%Q.
Proof.
  unfold Cart.price_of, Cart.or_else, Cart.truthy_number. cbn.
  destruct (Qeq_bool (price p) 0) eqn:E; cbn; rewrite ?E; cbn; [|reflexivity].
  apply Qeq_bool_iff in E. now rewrite E.
Qed.

(** X12: a product the cart does not hold adds its price times the quantity to
    the total. *)
Theorem add_to_cart_total auth cart p q :
  find (Cart.has_id (Some (id p))) cart = None ->
  (Cart.getCartTotal (Cart.step cart (fun c => Cart.addToCart auth c p q))
   == Cart.getCartTotal cart + price p * inject_Z q)%Q.
Proof.
  intros E. unfold Cart.step, Cart.addToCart. rewrite E.
  cbn [Cart.update]. rewrite total_app.
  unfold Cart.getCartTotal at 2. cbn [fold_left CartItem.quantity].
  rewrite price_of_new. lra.
Qed.

Lemma add_to_cart_total_witness :
  find (Cart.has_id (Some (id prodB)))
    [CartItem.mk (Some prodA) 2 (Some (price prodA))] = None
  /\ (Cart.getCartTotal
        (Cart.step [CartItem.mk (Some prodA) 2 (Some (price prodA))]
           (fun c => Cart.addToCart false c prodB 3))
      == Cart.getCartTotal [CartItem.mk (Some prodA) 2 (Some (price prodA))]
         + price prodB * inject_Z 3)%Q.
Proof.
  split; [reflexivity|].
  apply (add_to_cart_total false
           [CartItem.mk (Some prodA) 2 (Some (price prodA))] prodB 3).
  reflexivity.
Defined.

(** X13: the quantity buttons of the cart page never remove an entry and never
    bring a quantity below 1: on an entry of quantity 1 or less the minus
    button changes nothing and calls nothing. *)
Theorem minus_never_removes auth item cart :
  List.length (Cart.update (CartPage.minus auth item) cart) = List.length cart
  /\ List.length (Cart.update (CartPage.plus auth item) cart)
     = List.length cart
  /\ (CartItem.quantity item <= 1 ->
      Cart.update (CartPage.minus auth item) cart = cart
      /\ Cart.calls (CartPage.minus auth item) = []).
Proof.
  unfold CartPage.minus, CartPage.plus, CartPage.handleQuantityChange,
    Cart.updateQuantity.
  repeat split.
  - destruct (Z.ltb_spec (CartItem.quantity item - 1) 1); [reflexivity|].
    destruct (Z.leb_spec (CartItem.quantity item - 1) 0); [lia|].
    apply length_map.
  - destruct (Z.ltb_spec (CartItem.quantity item + 1) 1); [reflexivity|].
    destruct (Z.leb_spec (CartItem.quantity item + 1) 0); [lia|].
    apply length_map.
  - destruct (Z.ltb_spec (CartItem.quantity item - 1) 1); [reflexivity|lia].
  - destruct (Z.ltb_spec (CartItem.quantity item - 1) 1); [reflexivity|lia].
Qed.

Lemma find_after (f : CartItem.t -> bool) l l' :
  find f l = None -> find f (l ++ l') = find f l'.
Proof.
  induction l as [|x l IH]; [reflexivity|].
  simpl. destruct (f x); [discriminate | exact IH].
Qed.

(** X14: [addToCart] decides with the cart of the render it belongs to.  Called
    again after the cart was rendered anew, it raises the quantity of the
    entry the first call made; called twice from the same render, for a
    product that render did not hold, it appends two entries for the same
    product. *)
Theorem second_add_merges_or_duplicates auth cart p q1 q2 :
  find (Cart.has_id (Some (id p))) cart = None ->
  1 <= q1 + q2 ->
  Cart.step (Cart.step cart (fun c => Cart.addToCart auth c p q1))
    (fun c => Cart.addToCart auth c p q2)
  = cart ++ [CartItem.mk (Some p) (q1 + q2) (Some (price p))]
  /\ Cart.update (Cart.addToCart auth cart p q2)
       (Cart.update (Cart.addToCart auth cart p q1) cart)
     = cart ++ [CartItem.mk (Some p) q1 (Some (price p));
                CartItem.mk (Some p) q2 (Some (price p))]
  /\ ~ UniqueIds
         (Cart.update (Cart.addToCart auth cart p q2)
            (Cart.update (Cart.addToCart auth cart p q1) cart)).
Proof.
  intros E Hq.
  assert (Hself : forall q,
             Cart.has_id (Some (id p))
               (CartItem.mk (Some p) q (Some (price p))) = true).
  { intros q. unfold Cart.has_id. cbn. apply String.eqb_refl. }
  assert (E2 : Cart.update (Cart.addToCart auth cart p q2)
                 (Cart.update (Cart.addToCart auth cart p q1) cart)
               = cart ++ [CartItem.mk (Some p) q1 (Some (price p));
                          CartItem.mk (Some p) q2 (Some (price p))]).
  { unfold Cart.addToCart. rewrite E. cbn [Cart.update].
    now rewrite <- app_assoc. }
  split; [|split; [exact E2|]].
  - assert (E1 : Cart.step cart (fun c => Cart.addToCart auth c p q1)
                 = cart ++ [CartItem.mk (Some p) q1 (Some (price p))])
      by (unfold Cart.step, Cart.addToCart; now rewrite E).
    rewrite E1. unfold Cart.step, Cart.addToCart.
    rewrite (find_after _ _ _ E). cbn [find]. rewrite Hself.
    cbn [CartItem.quantity]. unfold Cart.updateQuantity.
    destruct (Z.leb_spec (q1 + q2) 0); [lia|].
    cbn [Cart.update]. rewrite map_app.
    rewrite map_no_match by exact (find_none _ _ E).
    cbn [map]. now rewrite Hself.
  - rewrite E2. unfold UniqueIds. rewrite ids_app. cbn.
    intros H. apply NoDup_app_remove_l in H.
    apply NoDup_cons_iff in H. destruct H as [H _]. apply H. now left.
Qed.

Lemma second_add_witness :
  (find (Cart.has_id (Some (id prodA))) [] = None /\ 1 <= 1 + 1)
  /\ Cart.step (Cart.step [] (fun c => Cart.addToCart false c prodA 1))
       (fun c => Cart.addToCart false c prodA 1)
     = [] ++ [CartItem.mk (Some prodA) (1 + 1) (Some (price prodA))]
  /\ Cart.update (Cart.addToCart false [] prodA 1)
       (Cart.update (Cart.addToCart false [] prodA 1) [])
     = [] ++ [CartItem.mk (Some prodA) 1 (Some (price prodA));
              CartItem.mk (Some prodA) 1 (Some (price prodA))]
  /\ ~ UniqueIds
         (Cart.update (Cart.addToCart false [] prodA 1)
            (Cart.update (Cart.addToCart false [] prodA 1) [])).
Proof.
  split; [split; [reflexivity | lia]|].
  apply (second_add_merges_or_duplicates false [] prodA 1 1);
    [reflexivity | lia].
Defined.

(** ** Products in the database *)

Lemma created_eq c p : created c p = c ++ [p].
Proof. reflexivity. Qed.

Lemma lookup_eq c i : lookup c i = find (fun p => String.eqb (id p) i) c.
Proof. reflexivity. Qed.

Lemma find_app_first {A : Type} (f : A -> bool) l l' :
  find f (l ++ l') = match find f l with
                     | Some x => Some x
                     | None => find f l'
                     end.
Proof.
  induction l as [|x l IH]; [reflexivity|].
  simpl. now destruct (f x).
Qed.

(** X15: [db.createProduct] appends without looking at the id: afterwards every
    id that was in use still finds the product it found before, and the id
    of the new product finds the new product only if it was not in use. *)
Theorem lookup_after_create c p i :
  lookup (created c p) i
  = match lookup c i with
    | Some older => Some older
    | None => if String.eqb (id p) i then Some p else None
    end.
Proof.
  rewrite created_eq, !lookup_eq, find_app_first.
  destruct (find _ c); [reflexivity|]. simpl.
  now destruct (String.eqb (id p) i).
Qed.

(** X16: the product page's handler answers 404 exactly when no product has the
    id asked for; otherwise it answers 200 with the first product of that
    id and its reviews.  Either way the database is left as it was. *)
Theorem product_detail_found_or_404 (Review : Type)
    (reviews : string -> list Review) c i :
  deref (snd (runState (getProductById Review reviews i) [c])) db.products = c
  /\ ((Reply.status (fst (runState (getProductById Review reviews i) [c])) = 404
       /\ Reply.data (fst (runState (getProductById Review reviews i) [c]))
          = None
       /\ forall p, In p c -> id p <> i)
      \/ exists p,
           Reply.status (fst (runState (getProductById Review reviews i) [c]))
           = 200
           /\ Reply.data (fst (runState (getProductById Review reviews i) [c]))
              = Some (p, reviews i)
           /\ lookup c i = Some p /\ In p c /\ id p = i).
Proof.
  assert (E : runState (getProductById Review reviews i) [c]
              = (match lookup c i with
                 | None => Reply.mk 404 false (Some "Product not found") None
                 | Some p => Reply.mk 200 true None (Some (p, reviews i))
                 end, [c])).
  { rewrite lookup_eq. unfold getProductById, database.getProductById.
    cbn. now destruct (find _ c). }
  rewrite E. cbn [fst snd]. split; [reflexivity|].
  rewrite lookup_eq. destruct (find _ c) as [p|] eqn:F.
  - right. exists p. apply find_some in F. destruct F as [Hin Hid].
    apply String.eqb_eq in Hid. now repeat split.
  - left. repeat split. intros p Hin Hid.
    pose proof (find_none _ _ F p Hin) as H. cbv beta in H.
    apply String.eqb_neq in H. contradiction.
Qed.


(** ** Slugs *)

Lemma lower_char_idempotent c : JS.lower_char (JS.lower_char c) = JS.lower_char c.
Proof. destruct c as [[] [] [] [] [] [] [] []]; reflexivity. Qed.

Lemma lower_char_ws c : JS.is_ws (JS.lower_char c) = JS.is_ws c.
Proof. destruct c as [[] [] [] [] [] [] [] []]; reflexivity. Qed.

Lemma toLowerCase_idempotent s :
  JS.toLowerCase (JS.toLowerCase s) = JS.toLowerCase s.
Proof.
  induction s as [|c s IH]; [reflexivity|].
  simpl. now rewrite lower_char_idempotent, IH.
Qed.

Lemma dash_runs_lower b s :
  JS.toLowerCase (dash_runs b s) = dash_runs b (JS.toLowerCase s).
Proof.
  revert b. induction s as [|c s IH]; intros b; [reflexivity|].
  simpl. rewrite lower_char_ws.
  destruct (JS.is_ws c); [destruct b|]; simpl; now rewrite ?IH.
Qed.

Lemma dash_runs_chars b s c :
  In c (chars (dash_runs b s)) ->
  c = "-"%char \/ (In c (chars s) /\ JS.is_ws c = false).
Proof.
  revert b. induction s as [|d s IH]; intros b; simpl; [tauto|].
  destruct (JS.is_ws d) eqn:E.
  - destruct b; simpl; intros H.
    + destruct (IH _ H) as [->|[? ?]]; tauto.
    + destruct H as [<-|H]; [now left|].
      destruct (IH _ H) as [->|[? ?]]; tauto.
  - simpl. intros [<-|H]; [tauto|].
    destruct (IH _ H) as [->|[? ?]]; tauto.
Qed.

Lemma dash_runs_clean b s :
  (forall c, In c (chars s) -> JS.is_ws c = false) -> dash_runs b s = s.
Proof.
  revert b. induction s as [|d s IH]; intros b H; [reflexivity|].
  simpl. rewrite (H d) by now left. f_equal. apply IH.
  intros c Hc. apply H. now right.
Qed.

Lemma toLowerCase_chars s c :
  In c (chars (JS.toLowerCase s)) -> JS.lower_char c = c.
Proof.
  induction s as [|d s IH]; simpl; [tauto|].
  intros [<-|H]; [apply lower_char_idempotent | now apply IH].
Qed.

Lemma dash_runs_length b s :
  (String.length (dash_runs b s) <= String.length s)%nat.
Proof.
  revert b. induction s as [|d s IH]; intros b; simpl; [lia|].
  destruct (JS.is_ws d); [destruct b|]; simpl;
    [pose proof (IH true) | pose proof (IH true) | pose proof (IH false)]; lia.
Qed.

Lemma toLowerCase_length s : String.length (JS.toLowerCase s) = String.length s.
Proof. induction s as [|c s IH]; simpl; congruence. Qed.

Lemma slug_chars n c :
  In c (chars (slug_of n)) -> JS.is_ws c = false /\ JS.lower_char c = c.
Proof.
  unfold slug_of. intros Hc. apply dash_runs_chars in Hc.
  destruct Hc as [->|[Hin Hws]]; [now split|].
  split; [exact Hws | now apply toLowerCase_chars with n].
Qed.

(** X18: the slug of a product name holds no white space and no upper-case
    letter, and is no longer than the name. *)
Theorem slug_is_clean n :
  (forall c, In c (chars (slug_of n)) ->
     JS.is_ws c = false /\ JS.lower_char c = c)
  /\ (String.length (slug_of n) <= String.length n)%nat.
Proof.
  split; [apply slug_chars|].
  unfold slug_of. rewrite <- (toLowerCase_length n). apply dash_runs_length.
Qed.

(** X19: making the slug of a slug changes nothing. *)
Theorem slug_idempotent n : slug_of (slug_of n) = slug_of n.
Proof.
  assert (L : JS.toLowerCase (slug_of n) = slug_of n)
    by (unfold slug_of; now rewrite dash_runs_lower, toLowerCase_idempotent).
  unfold slug_of at 1. rewrite L. apply dash_runs_clean.
  intros c Hc. now apply (slug_chars n).
Qed.

(** ** Authentication and authorisation *)

Lemma split_nonempty sep s : split sep s <> [].
Proof.
  destruct s as [|c s]; simpl; [discriminate|].
  destruct (Ascii.eqb c sep); [discriminate|].
  destruct (split sep s); discriminate.
Qed.

Lemma split_spaceless s : Spaceless s -> split " " s = [s].
Proof.
  unfold Spaceless, chars. induction s as [|c s IH]; intros H; [reflexivity|].
  simpl in *. destruct (Ascii.eqb_spec c " "); [subst; tauto|].
  rewrite IH by tauto. reflexivity.
Qed.

Lemma split_word a b :
  Spaceless a -> split " " (a ++ String " " b)%string = a :: split " " b.
Proof.
  unfold Spaceless, chars. induction a as [|c a IH]; intros H; [reflexivity|].
  simpl in *. destruct (Ascii.eqb_spec c " "); [subst; tauto|].
  rewrite IH by tauto. reflexivity.
Qed.

(** X20: [authenticate] takes the second word of the header for the token and
    never looks at the first: whatever stands before the space, a token
    that verifies lets the request pass with the decoded user, one that
    does not is answered 401, and so is a header of one word and a
    missing header. *)
Theorem authenticate_reads_second_word verify scheme token :
  Spaceless scheme -> Spaceless token -> token <> "" ->
  authenticate verify (Some (scheme ++ String " " token)%string)
  = match verify token with
    | Some user => Next user
    | None => Sent (Reply.mk 401 false (Some "Invalid or expired token") None)
    end
  /\ authenticate verify (Some scheme)
     = Sent (Reply.mk 401 false (Some "Authentication required") None)
  /\ authenticate verify None
     = Sent (Reply.mk 401 false (Some "Authentication required") None).
Proof.
  intros Hs Ht Hne. unfold authenticate.
  rewrite (split_word _ _ Hs), !split_spaceless by assumption.
  cbn [nth_error]. rewrite (proj2 (truthy_true token) Hne).
  repeat split.
Qed.

Lemma authenticate_witness :
  (Spaceless "Bearer" /\ Spaceless "abc" /\ "abc" <> "")
  /\ authenticate (fun t => if String.eqb t "abc"
                            then Some (Payload.mk "user-1" "a@b.c" "seller")
                            else None)
       (Some ("Bearer" ++ String " " "abc")%string)
     = match (fun t => if String.eqb t "abc"
                       then Some (Payload.mk "user-1" "a@b.c" "seller")
                       else None) "abc" with
       | Some user => Next user
       | None =>
           Sent (Reply.mk 401 false (Some "Invalid or expired token") None)
       end
  /\ authenticate (fun t => if String.eqb t "abc"
                            then Some (Payload.mk "user-1" "a@b.c" "seller")
                            else None)
       (Some "Bearer")
     = Sent (Reply.mk 401 false (Some "Authentication required") None)
  /\ authenticate (fun t => if String.eqb t "abc"
                            then Some (Payload.mk "user-1" "a@b.c" "seller")
                            else None)
       None
     = Sent (Reply.mk 401 false (Some "Authentication required") None).
Proof.
  assert (H1 : Spaceless "Bearer")
    by (unfold Spaceless, chars; simpl; intuition discriminate).
  assert (H2 : Spaceless "abc")
    by (unfold Spaceless, chars; simpl; intuition discriminate).
  assert (H3 : "abc" <> "") by discriminate.
  split; [repeat split; assumption|].
  apply (authenticate_reads_second_word
           (fun t => if String.eqb t "abc"
                     then Some (Payload.mk "user-1" "a@b.c" "seller")
                     else None)
           "Bearer" "abc" H1 H2 H3).
Defined.

Lemma seller_or_admin r :
  existsb (String.eqb r) ["seller"; "admin"] = true
  <-> r = "seller" \/ r = "admin".
Proof.
  simpl. rewrite !orb_true_iff, !String.eqb_eq. intuition discriminate.
Qed.

Lemma not_seller_nor_admin r :
  negb (String.eqb r "seller") && negb (String.eqb r "admin") = false
  <-> r = "seller" \/ r = "admin".
Proof.
  rewrite andb_false_iff, !negb_false_iff, !String.eqb_eq. tauto.
Qed.

(** X21: posting a product creates one exactly when the token verifies, the
    role in the token is seller or admin, the user the token names is in
    the database with the role seller or admin there too, and the body has
    a name that is a string.  The answer is then 201 and one record, sold
    by that user and named as the body says, is appended; in every other
    case the answer is 401, 403 or 500 and the products stay as they
    were. *)
Theorem post_products_creates_for_sellers_only msg1 msg2 msg3 verify
    production authorization body env users products :
  (fst (post_products msg1 msg2 msg3 verify production authorization body
          env users products) = 201
   <-> exists user stored fields name,
         authenticate verify authorization = Next user
         /\ (Payload.role user = "seller" \/ Payload.role user = "admin")
         /\ find (fun u => String.eqb (User.id u) (Payload.id user)) users
            = Some stored
         /\ (User.role stored = "seller" \/ User.role stored = "admin")
         /\ body = Some fields
         /\ ProductBody.name fields = Field.Text name)
  /\ (fst (post_products msg1 msg2 msg3 verify production authorization body
             env users products) = 201 ->
      exists record,
        snd (post_products msg1 msg2 msg3 verify production authorization
               body env users products) = products ++ [record]
        /\ Some (NewProduct.sellerId record)
           = match authenticate verify authorization with
             | Next user => Some (Payload.id user)
             | _ => None
             end
        /\ Some (Field.Text (NewProduct.name record))
           = option_map ProductBody.name body)
  /\ (fst (post_products msg1 msg2 msg3 verify production authorization body
             env users products) <> 201 ->
      In (fst (post_products msg1 msg2 msg3 verify production authorization
                 body env users products)) [401; 403; 500]
      /\ snd (post_products msg1 msg2 msg3 verify production authorization
                body env users products) = products).
Proof.
  unfold post_products.
  assert (Ha : forall r, authenticate verify authorization = Sent r ->
                         Reply.status r = 401).
  { unfold authenticate. intros r.
    destruct authorization as [h|]; [|intros [= <-]; reflexivity].
    destruct (nth_error (split " " h) 1) as [t|]; [|intros [= <-]; reflexivity].
    destruct (JS.truthy t); [|intros [= <-]; reflexivity].
    destruct (verify t); [discriminate | intros [= <-]; reflexivity]. }
  assert (Hf : forall e, authenticate verify authorization <> Failed e).
  { unfold authenticate. intros e.
    destruct authorization as [h|]; [|discriminate].
    destruct (nth_error (split " " h) 1) as [t|]; [|discriminate].
    destruct (JS.truthy t); [|discriminate].
    destruct (verify t); discriminate. }
  destruct (authenticate verify authorization) as [user|r|e] eqn:A.
  - unfold authorize, createProduct, database.getUserById. cbn [runState fst].
    destruct (existsb _ _) eqn:R.
    + destruct body as [fields|]; cbn.
      * destruct (find _ users) as [stored|] eqn:F.
        -- destruct (negb _ && negb _) eqn:S; cbn.
           ++ split; [split; [discriminate|]|split; [discriminate|]].
              ** intros (u & s & f & n & [= <-] & _ & Fs & Hs & _).
                 rewrite F in Fs. injection Fs as <-.
                 apply not_seller_nor_admin in Hs. congruence.
              ** intros _. split; [tauto | reflexivity].
           ++ destruct (ProductBody.name fields) as [|name|shown] eqn:N;
                cbn; unfold errorHandler; cbn.
              ** split; [split; [discriminate|]|split; [discriminate|]].
                 --- intros (u & s & f & n & _ & _ & _ & _ & [= <-] & Hn).
                     congruence.
                 --- intros _. split; [tauto | reflexivity].
              ** split; [split|split].
                 --- intros _. exists user, stored, fields, name.
                     repeat split; auto.
                     +++ now apply seller_or_admin.
                     +++ now apply not_seller_nor_admin.
                 --- reflexivity.
                 --- intros _. eexists. split; [reflexivity|].
                     split; reflexivity.
                 --- congruence.
              ** split; [split; [discriminate|]|split; [discriminate|]].
                 --- intros (u & s & f & n & _ & _ & _ & _ & [= <-] & Hn).
                     congruence.
                 --- intros _. split; [tauto | reflexivity].
        -- cbn. unfold errorHandler. cbn.
           split; [split; [discriminate|]|split; [discriminate|]].
           ++ intros (u & s & f & n & [= <-] & _ & Fs & _). congruence.
           ++ intros _. split; [tauto | reflexivity].
      * unfold errorHandler. cbn.
        split; [split; [discriminate|]|split; [discriminate|]].
        -- intros (u & s & f & n & _ & _ & _ & _ & Hb & _). discriminate.
        -- intros _. split; [tauto | reflexivity].
    + cbn. split; [split; [discriminate|]|split; [discriminate|]].
      * intros (u & s & f & n & [= <-] & Hr & _).
        apply seller_or_admin in Hr. congruence.
      * intros _. split; [tauto | reflexivity].
  - cbn. rewrite (Ha r eq_refl).
    split; [split; [discriminate|]|split; [discriminate|]].
    + intros (u & s & f & n & H & _). discriminate.
    + intros _. split; [simpl; tauto | reflexivity].
  - exfalso. now apply (Hf e).
Qed.

(** A body with a name is stored, slug and numbers made from its fields;
    the same body without the name is answered 500 and nothing is
    stored. *)
Example post_products_ex1 msg1 msg2 msg3 :
  post_products msg1 msg2 msg3 toy_verify false (Some "Bearer grace")
    (Some lamp) monday [grace] []
  = (201,
     [{| NewProduct.id := "prod-1700000000000";
         NewProduct.name := "Desk  Lamp";
         NewProduct.slug := "desk-lamp";
         NewProduct.description := Field.Text "A lamp";
         NewProduct.price := JS.Finite (39 # 2);
         NewProduct.categoryId := Field.Missing;
         NewProduct.sellerId := "user-7";
         NewProduct.stock := JS.Whole 3;
         NewProduct.status := "active";
         NewProduct.rating := 0;
         NewProduct.reviewCount := 0;
         NewProduct.createdAt := "2023-11-14T22:13:20.000Z" |}]).
Proof. vm_compute. reflexivity. Qed.

Example post_products_ex2 msg1 msg2 msg3 :
  post_products msg1 msg2 msg3 toy_verify false (Some "Bearer grace")
    (Some nameless) monday [grace] [] = (500, [])
  /\ post_products msg1 msg2 msg3 toy_verify false (Some "Bearer grace")
       None monday [grace] [] = (500, []).
Proof. split; reflexivity. Qed.

(** ** Registration and login *)

Lemma find_email_none e users :
  find (fun u => String.eqb (User.email u) e) users = None
  <-> ~ In e (map User.email users).
Proof.
  induction users as [|u l IH]; simpl; [tauto|].
  destruct (String.eqb_spec (User.email u) e) as [->|Hne].
  - split; [discriminate | tauto].
  - rewrite IH. tauto.
Qed.

Lemma find_email_last e users u :
  ~ In e (map User.email users) -> User.email u = e ->
  find (fun u => String.eqb (User.email u) e) (users ++ [u]) = Some u.
Proof.
  intros Hn He. rewrite find_app_first.
  rewrite (proj2 (find_email_none e users) Hn). simpl.
  now rewrite He, String.eqb_refl.
Qed.

Section AuthFacts.
Variable bcrypt_hash : string -> string -> string.
Variable bcrypt_compare : string -> string -> bool.
Variable jwt_sign : Payload.t -> string.
(** [jwt.sign] as a later request meets it. *)
Variable jwt_sign_later : Payload.t -> string.

Lemma register_known body env users :
  In (RegisterBody.email body) (map User.email users) ->
  runState (register bcrypt_hash jwt_sign body env) users
  = (Reply.mk 400 false (Some "User with this email already exists") None,
     users).
Proof.
  intros Hin. unfold register, register_check, database.getUserByEmail. cbn.
  destruct (find _ users) eqn:F; [reflexivity|].
  apply find_email_none in F. contradiction.
Qed.

Lemma register_new body env users :
  ~ In (RegisterBody.email body) (map User.email users) ->
  runState (register bcrypt_hash jwt_sign body env) users
  = (Reply.mk 201 true None
       (Some {| auth_user :=
                  UserResponse.without_password
                    (new_user bcrypt_hash body env);
                auth_token := token_for jwt_sign
                                (new_user bcrypt_hash body env) |}),
     users ++ [new_user bcrypt_hash body env]).
Proof.
  intros Hn. apply find_email_none in Hn.
  unfold register, register_check, database.getUserByEmail. cbn.
  now rewrite Hn.
Qed.

(** X22: registrations handled one at a time never store an email twice: an
    email already stored is answered 400 and nothing is stored; a new one
    is answered 201 and its user is appended, as a buyer, with the hash in
    place of the password. *)
Theorem register_keeps_emails_unique body env users :
  NoDup (map User.email users) ->
  NoDup (map User.email
           (snd (runState (register bcrypt_hash jwt_sign body env) users)))
  /\ (In (RegisterBody.email body) (map User.email users) ->
      Reply.status (fst (runState (register bcrypt_hash jwt_sign body env)
                           users)) = 400
      /\ snd (runState (register bcrypt_hash jwt_sign body env) users)
         = users)
  /\ (~ In (RegisterBody.email body) (map User.email users) ->
      Reply.status (fst (runState (register bcrypt_hash jwt_sign body env)
                           users)) = 201
      /\ exists user,
           snd (runState (register bcrypt_hash jwt_sign body env) users)
           = users ++ [user]
           /\ User.email user = RegisterBody.email body
           /\ User.role user = "buyer"
           /\ User.password user
              = bcrypt_hash (RegisterBody.password body) (salt env)).
Proof.
  intros Hu.
  destruct (in_dec string_dec (RegisterBody.email body)
              (map User.email users)) as [Hin|Hn].
  - rewrite (register_known body env users Hin). cbn [fst snd].
    split; [exact Hu|]. split; [now split | contradiction].
  - rewrite (register_new body env users Hn). cbn [fst snd].
    split; [|split; [contradiction|]].
    + rewrite map_app. apply NoDup_app; [exact Hu | repeat constructor; simpl; tauto|].
      intros e He [<-|[]]. contradiction.
    + intros _. split; [reflexivity|].
      exists (new_user bcrypt_hash body env). now repeat split.
Qed.

(** X23: after a registration, logging in with the same email and password
    succeeds and returns the user the registration returned, with a token
    signed anew, at the time of the login, for the same id, email and
    role, provided [bcrypt.compare] accepts the password against its own
    hash. *)
Theorem register_then_login body env users :
  ~ In (RegisterBody.email body) (map User.email users) ->
  bcrypt_compare (RegisterBody.password body)
    (bcrypt_hash (RegisterBody.password body) (salt env)) = true ->
  exists user payload,
    fst (runState (register bcrypt_hash jwt_sign body env) users)
    = Reply.mk 201 true None
        (Some {| auth_user := user; auth_token := jwt_sign payload |})
    /\ fst (runState
              (login bcrypt_compare jwt_sign_later
                 (LoginBody.mk (RegisterBody.email body)
                    (RegisterBody.password body)))
              (snd (runState (register bcrypt_hash jwt_sign body env) users)))
       = Reply.mk 200 true None
           (Some {| auth_user := user; auth_token := jwt_sign_later payload |})
    /\ UserResponse.email user = RegisterBody.email body
    /\ Payload.id payload = UserResponse.id user
    /\ Payload.email payload = RegisterBody.email body
    /\ Payload.role payload = "buyer".
Proof.
  intros Hn Hc. rewrite (register_new body env users Hn). cbn [fst snd].
  exists (UserResponse.without_password (new_user bcrypt_hash body env)),
    (Payload.mk (User.id (new_user bcrypt_hash body env))
       (User.email (new_user bcrypt_hash body env))
       (User.role (new_user bcrypt_hash body env))).
  split; [reflexivity|]. split; [|repeat split].
  unfold login, database.getUserByEmail. cbn.
  rewrite (find_email_last _ _ (new_user bcrypt_hash body env) Hn eq_refl).
  cbn. now rewrite Hc.
Qed.

(** X24: a login that fails never tells why: an unknown email and a wrong
    password get the very same 401 reply.  A login succeeds only for a
    stored email whose stored hash [bcrypt.compare] accepts, and no login
    changes the database. *)
Theorem login_fails_the_same_way body users :
  snd (runState (login bcrypt_compare jwt_sign body) users) = users
  /\ (fst (runState (login bcrypt_compare jwt_sign body) users)
      = invalid_credentials
      \/ exists user,
           find (fun u => String.eqb (User.email u) (LoginBody.email body))
             users = Some user
           /\ bcrypt_compare (LoginBody.password body) (User.password user)
              = true
           /\ fst (runState (login bcrypt_compare jwt_sign body) users)
              = Reply.mk 200 true None
                  (Some {| auth_user := UserResponse.without_password user;
                           auth_token := token_for jwt_sign user |})).
Proof.
  unfold login, database.getUserByEmail. cbn.
  destruct (find _ users) as [user|] eqn:F; cbn; [|now split; [|left]].
  destruct (bcrypt_compare _ _) eqn:C; cbn; (split; [reflexivity|]);
    [right; now exists user | now left].
Qed.

(** X25: a second registration of an email that arrives while the first one
    still waits for its hash is not turned away: both are answered 201 and
    the email is stored twice. *)
Theorem overlapping_registrations_store_twice body1 body2 env1 env2 users :
  RegisterBody.email body1 = RegisterBody.email body2 ->
  ~ In (RegisterBody.email body1) (map User.email users) ->
  exists reply1 reply2,
    fst (runState (register_overlapping bcrypt_hash jwt_sign
                     body1 body2 env1 env2) users)
    = Some (reply1, reply2)
    /\ Reply.status reply1 = 201 /\ Reply.status reply2 = 201
    /\ ~ NoDup (map User.email
                  (snd (runState (register_overlapping bcrypt_hash jwt_sign
                                    body1 body2 env1 env2) users))).
Proof.
  intros He Hn. pose proof Hn as Hn2. rewrite He in Hn2.
  apply find_email_none in Hn, Hn2.
  unfold register_overlapping, register_check, register_store,
    database.getUserByEmail, database.createUser. cbn.
  rewrite Hn. cbn. rewrite Hn2. cbn.
  do 2 eexists. split; [reflexivity|]. split; [reflexivity|].
  split; [reflexivity|].
  rewrite !map_app, <- app_assoc. cbn. rewrite He. intros H.
  apply NoDup_app_remove_l in H.
  apply NoDup_cons_iff in H. destruct H as [H _]. apply H. now left.
Qed.

End AuthFacts.

Lemma register_keeps_emails_unique_witness :
  NoDup (map User.email [new_user toy_hash ada monday])
  /\ NoDup (map User.email
              (snd (runState (register toy_hash toy_sign ada monday)
                      [new_user toy_hash ada monday])))
  /\ (In (RegisterBody.email ada)
        (map User.email [new_user toy_hash ada monday]) ->
      Reply.status (fst (runState (register toy_hash toy_sign ada monday)
                           [new_user toy_hash ada monday])) = 400
      /\ snd (runState (register toy_hash toy_sign ada monday)
                [new_user toy_hash ada monday])
         = [new_user toy_hash ada monday])
  /\ (~ In (RegisterBody.email ada)
          (map User.email [new_user toy_hash ada monday]) ->
      Reply.status (fst (runState (register toy_hash toy_sign ada monday)
                           [new_user toy_hash ada monday])) = 201
      /\ exists user,
           snd (runState (register toy_hash toy_sign ada monday)
                  [new_user toy_hash ada monday])
           = [new_user toy_hash ada monday] ++ [user]
           /\ User.email user = RegisterBody.email ada
           /\ User.role user = "buyer"
           /\ User.password user
              = toy_hash (RegisterBody.password ada) (salt monday)).
Proof.
  assert (H : NoDup (map User.email [new_user toy_hash ada monday]))
    by (repeat constructor; simpl; tauto).
  split; [exact H|].
  apply (register_keeps_emails_unique toy_hash toy_sign ada monday
           [new_user toy_hash ada monday] H).
Defined.

Lemma register_then_login_witness :
  (~ In (RegisterBody.email ada) (map User.email [])
   /\ toy_compare (RegisterBody.password ada)
        (toy_hash (RegisterBody.password ada) (salt monday)) = true)
  /\ exists user payload,
       fst (runState (register toy_hash toy_sign ada monday) [])
       = Reply.mk 201 true None
           (Some {| auth_user := user; auth_token := toy_sign payload |})
       /\ fst (runState
                 (login toy_compare toy_sign_later
                    (LoginBody.mk (RegisterBody.email ada)
                       (RegisterBody.password ada)))
                 (snd (runState (register toy_hash toy_sign ada monday) [])))
          = Reply.mk 200 true None
              (Some {| auth_user := user;
                       auth_token := toy_sign_later payload |})
       /\ UserResponse.email user = RegisterBody.email ada
       /\ Payload.id payload = UserResponse.id user
       /\ Payload.email payload = RegisterBody.email ada
       /\ Payload.role payload = "buyer".
Proof.
  split; [split; [simpl; tauto | reflexivity]|].
  apply (register_then_login toy_hash toy_compare toy_sign toy_sign_later
           ada monday []);
    [simpl; tauto | reflexivity].
Defined.

(** The two tokens of one user differ as soon as the signer has moved
    on. *)
Example tokens_differ :
  option_map auth_token
    (Reply.data (fst (runState (register toy_hash toy_sign ada monday) [])))
  = Some "user-1700000000000"
  /\ option_map auth_token
       (Reply.data
          (fst (runState
                  (login toy_compare toy_sign_later
                     (LoginBody.mk "ada@example.com" "secret"))
                  (snd (runState (register toy_hash toy_sign ada monday)
                          [])))))
     = Some "user-1700000000000@1700604800".
Proof. split; reflexivity. Qed.

Lemma overlapping_registrations_witness :
  (RegisterBody.email ada = RegisterBody.email ada
   /\ ~ In (RegisterBody.email ada) (map User.email []))
  /\ exists reply1 reply2,
       fst (runState (register_overlapping toy_hash toy_sign
                        ada ada monday monday) [])
       = Some (reply1, reply2)
       /\ Reply.status reply1 = 201 /\ Reply.status reply2 = 201
       /\ ~ NoDup (map User.email
                     (snd (runState (register_overlapping toy_hash toy_sign
                                       ada ada monday monday) []))).
Proof.
  split; [split; [reflexivity | simpl; tauto]|].
  apply (overlapping_registrations_store_twice toy_hash toy_sign
           ada ada monday monday []); [reflexivity | simpl; tauto].
Defined.

(** ** The cart on the server *)

(** X26: adding to the cart on the server touches the cart of the user of
    the token only: for a product that is not in the catalog the answer is
    404 and no row is stored; otherwise one row with the product and the
    quantity as sent is appended to that user's rows, even when the user
    already has a row for the product; the rows of every other user are
    what they were. *)
Theorem server_cart_add_is_per_user user productId quantity env catalog cart :
  (lookup catalog productId = None ->
   runState (cart_addToCart user productId quantity env catalog) cart
   = (CartNotFound "Product not found", cart))
  /\ (lookup catalog productId <> None ->
      exists row,
        runState (cart_addToCart user productId quantity env catalog) cart
        = (CartAdded "Item added to cart" row, cart ++ [row])
        /\ CartRow.productId row = productId
        /\ CartRow.quantity row = quantity
        /\ rows_of (Payload.id user) (cart ++ [row])
           = rows_of (Payload.id user) cart ++ [row])
  /\ (forall other,
        other <> Payload.id user ->
        rows_of other
          (snd (runState (cart_addToCart user productId quantity env catalog)
                  cart))
        = rows_of other cart).
Proof.
  unfold cart_addToCart, rows_of, cartTable.getCartByUser, cartTable.addToCart.
  destruct (lookup catalog productId) as [p|]; cbn.
  - split; [discriminate|]. split.
    + intros _. eexists. split; [reflexivity|]. cbn.
      rewrite filter_app. cbn. now rewrite String.eqb_refl.
    + intros other Hne. rewrite filter_app. cbn.
      destruct (String.eqb_spec (Payload.id user) other); [congruence|].
      apply app_nil_r.
  - split; [reflexivity|]. split; [congruence | reflexivity].
Qed.
